(** * Video Manager Agent: the classification, store and retrieval logic
      of [src/app/page.tsx]

    The component [Home] keeps its library in React state and derives
    everything else from it with ordinary array and string methods.
    This development embeds those functions and proves the behaviour
    the specification states about them.

    Conventions of the embedding.
    - A JavaScript string is a [string]: a finite sequence of 8-bit
      characters.  [toLowerCase] maps the letters A..Z to a..z and
      leaves every other character alone.
    - An array is a [list]; [Array.from (new Set xs)] keeps the first
      occurrence of every element, in order.
    - React state is a record; an event handler is a function from the
      state of the render it closes over to the next state.
    - The media duration is a non-negative rational number of seconds. *)

From Stdlib Require Import List String Ascii Bool Arith ZArith NArith Lia.
From Stdlib Require Import QArith Qround DecimalString Permutation.
Import ListNotations.

Close Scope Q_scope.
Open Scope string_scope.
Open Scope list_scope.
Open Scope nat_scope.

(** ** The string and array methods the page relies on *)

Module JS.

(** [c] with an upper-case letter A..Z replaced by its lower-case one. *)
Definition lowerChar (c : ascii) : ascii :=
  let n := nat_of_ascii c in
  if (65 <=? n) && (n <=? 90) then ascii_of_nat (n + 32) else c.

(** [String.prototype.toLowerCase]. *)
Fixpoint toLowerCase (s : string) : string :=
  match s with
  | EmptyString => EmptyString
  | String c s' => String (lowerChar c) (toLowerCase s')
  end.

(** [s.startsWith(p)]. *)
Fixpoint startsWith (s p : string) {struct p} : bool :=
  match p, s with
  | EmptyString, _ => true
  | String _ _, EmptyString => false
  | String a p', String b s' => Ascii.eqb a b && startsWith s' p'
  end.

(** [String.prototype.includes]: does [sub] occur somewhere in [s]? *)
Fixpoint includes (s sub : string) : bool :=
  startsWith s sub ||
  match s with
  | EmptyString => false
  | String _ s' => includes s' sub
  end.

(** [Array.prototype.includes] on an array of strings. *)
Definition arrIncludes (l : list string) (x : string) : bool :=
  existsb (String.eqb x) l.

(** [Array.prototype.some]. *)
Definition some {A} (f : A -> bool) (l : list A) : bool := existsb f l.

(** [Array.prototype.slice(0, n)]. *)
Definition slice0 {A} (n : nat) (l : list A) : list A := firstn n l.

(** [Set.prototype.add] on the insertion-ordered content of a Set. *)
Definition setAdd (seen : list string) (x : string) : list string :=
  if arrIncludes seen x then seen else seen ++ [x].

(** [Array.from(new Set(xs))]: the elements of [xs], each kept at its
    first occurrence. *)
Definition fromSet (xs : list string) : list string :=
  fold_left setAdd xs [].

(** [s.padStart(n, '0')]. *)
Definition padStart0 (n : nat) (s : string) : string :=
  let fix zeros k := match k with O => s | S k' => String "0" (zeros k') end in
  zeros (n - String.length s).

End JS.

(** ** The regular expression [/20\d{2}/] *)

Definition isDigit (c : ascii) : bool :=
  let n := nat_of_ascii c in (48 <=? n) && (n <=? 57).

(** Does a match of [/20\d{2}/] start at the head of [s]?  If so, the
    matched text. *)
Definition yearAt (s : string) : option string :=
  match s with
  | String "2" (String "0" (String d1 (String d2 _))) =>
      if isDigit d1 && isDigit d2
      then Some (String "2" (String "0" (String d1 (String d2 EmptyString))))
      else None
  | _ => None
  end.

Arguments yearAt : simpl never.

(** [filename.match(/20\d{2}/)]: the leftmost match; [yearMatch[0]] is
    the matched text. *)
Fixpoint yearMatch (s : string) : option string :=
  match yearAt s with
  | Some y => Some y
  | None =>
      match s with
      | EmptyString => None
      | String _ s' => yearMatch s'
      end
  end.

(** ** Tag inference: [generateAutoTags] *)

(** [if (c) tags.push(t)] *)
Definition pushIf (c : bool) (t : string) (tags : list string) : list string :=
  if c then tags ++ [t] else tags.

Definition generateAutoTags (filename : string) : list string :=
  let tags := [] in
  let lower := JS.toLowerCase filename in
  let tags := pushIf (JS.includes lower "tutorial" || JS.includes lower "how-to") "tutorial" tags in
  let tags := pushIf (JS.includes lower "meeting" || JS.includes lower "call") "meeting" tags in
  let tags := pushIf (JS.includes lower "presentation" || JS.includes lower "demo") "presentation" tags in
  let tags := pushIf (JS.includes lower "screen" || JS.includes lower "recording") "screen-recording" tags in
  let tags := pushIf (JS.includes lower "webinar") "webinar" tags in
  let tags := pushIf (JS.includes lower "interview") "interview" tags in
  let tags :=
    match yearMatch filename with
    | Some y => tags ++ [y]
    | None => tags
    end in
  let tags := pushIf (JS.includes lower "4k") "4K" tags in
  let tags := pushIf (JS.includes lower "1080p" || JS.includes lower "hd") "HD" tags in
  let tags := pushIf (JS.includes lower "final") "final" tags in
  let tags := pushIf (JS.includes lower "draft") "draft" tags in
  if 0 <? List.length tags then tags else ["untagged"].

(** ** The data model *)

(** [interface VideoFile].  [size] is the byte size of the file,
    [uploadDate] the time stamp of the import in milliseconds. *)
Record VideoFile := mkVideoFile {
  id : string;
  name : string;
  size : N;
  duration : option string;
  uploadDate : Z;
  tags : list string;
  thumbnail : option string;
  url : string;
  type : string
}.

(** The object spread [{ ...v, tags: ts }]. *)
Definition withTags (v : VideoFile) (ts : list string) : VideoFile :=
  {| id := id v; name := name v; size := size v; duration := duration v;
     uploadDate := uploadDate v; tags := ts; thumbnail := thumbnail v;
     url := url v; type := type v |}.

(** [v] after the assignment [v.duration = d]. *)
Definition withDuration (v : VideoFile) (d : string) : VideoFile :=
  {| id := id v; name := name v; size := size v; duration := Some d;
     uploadDate := uploadDate v; tags := tags v; thumbnail := thumbnail v;
     url := url v; type := type v |}.

(** The state of [Home]: the [useState] cells, and the object URLs
    released so far with [URL.revokeObjectURL]. *)
Record State := mkState {
  videos : list VideoFile;
  searchQuery : string;
  selectedVideo : option VideoFile;
  isUploading : bool;
  agentMessage : string;
  revoked : list string
}.

Definition initialState : State :=
  {| videos := []; searchQuery := ""; selectedVideo := None;
     isUploading := false; agentMessage := ""; revoked := [] |}.

(** [selectedVideo?.id === videoId] *)
Definition selectedIs (st : State) (videoId : string) : bool :=
  match selectedVideo st with
  | Some v => String.eqb (id v) videoId
  | None => false
  end.

(** ** The store: [deleteVideo], [addTag], [removeTag] *)

(** Each handler reads the state of the render it was created in and
    returns the state after its [set...] calls.  [revoked] grows by the
    URL handed to [URL.revokeObjectURL]. *)
Definition deleteVideo (videoId : string) (st : State) : State :=
  let video := find (fun v => String.eqb (id v) videoId) (videos st) in
  {| videos := filter (fun v => negb (String.eqb (id v) videoId)) (videos st);
     searchQuery := searchQuery st;
     selectedVideo := if selectedIs st videoId then None else selectedVideo st;
     isUploading := isUploading st;
     agentMessage := " Agent: Video removed from your library.";
     revoked := match video with
                | Some v => revoked st ++ [url v]
                | None => revoked st
                end |}.

(** The double quote of the agent's message. *)
Definition dquote : string := String (ascii_of_nat 34) EmptyString.

Definition addTag (videoId tag : string) (st : State) : State :=
  {| videos :=
       map (fun v =>
              if String.eqb (id v) videoId && negb (JS.arrIncludes (tags v) tag)
              then withTags v (tags v ++ [tag])
              else v)
           (videos st);
     searchQuery := searchQuery st;
     selectedVideo :=
       if selectedIs st videoId
       then match selectedVideo st with
            | Some prev => Some (withTags prev (tags prev ++ [tag]))
            | None => None
            end
       else selectedVideo st;
     isUploading := isUploading st;
     agentMessage :=
       String.append " Agent: Added tag "
         (String.append dquote
            (String.append tag
               (String.append dquote " to help organize your content.")));
     revoked := revoked st |}.

Definition removeTag (videoId tag : string) (st : State) : State :=
  let dropTag ts := filter (fun t => negb (String.eqb t tag)) ts in
  {| videos :=
       map (fun v =>
              if String.eqb (id v) videoId
              then withTags v (dropTag (tags v))
              else v)
           (videos st);
     searchQuery := searchQuery st;
     selectedVideo :=
       if selectedIs st videoId
       then match selectedVideo st with
            | Some prev => Some (withTags prev (dropTag (tags prev)))
            | None => None
            end
       else selectedVideo st;
     isUploading := isUploading st;
     agentMessage := agentMessage st;
     revoked := revoked st |}.

(** [onClick={() => setSelectedVideo(video)}] *)
Definition selectVideo (v : VideoFile) (st : State) : State :=
  {| videos := videos st; searchQuery := searchQuery st;
     selectedVideo := Some v; isUploading := isUploading st;
     agentMessage := agentMessage st; revoked := revoked st |}.

(** ** Import: one turn of the loop of [handleFileUpload] *)

(** What the loop reads from the browser for one file: the [File]
    fields, the object URL, the random identifier and the clock. *)
Record FileInput := mkFileInput {
  fileName : string;
  fileSize : N;
  fileType : string;
  objectURL : string;
  randomId : string;
  now : Z
}.

(** [newVideo] as built before the duration is awaited. *)
Definition newVideo (f : FileInput) : VideoFile :=
  {| id := randomId f; name := fileName f; size := fileSize f;
     duration := None; uploadDate := now f;
     tags := generateAutoTags (fileName f); thumbnail := None;
     url := objectURL f; type := fileType f |}.

(** The continuation of [await getVideoDuration(url)]:
    [newVideo.duration = duration; setVideos(prev => [...prev, newVideo])]. *)
Definition resumeUpload (f : FileInput) (d : string) (st : State) : State :=
  {| videos := videos st ++ [withDuration (newVideo f) d];
     searchQuery := searchQuery st; selectedVideo := selectedVideo st;
     isUploading := isUploading st; agentMessage := agentMessage st;
     revoked := revoked st |}.

(** ** Search and suggestion *)

Definition matchesQuery (q : string) (video : VideoFile) : bool :=
  JS.includes (JS.toLowerCase (name video)) (JS.toLowerCase q) ||
  JS.some (fun tag => JS.includes (JS.toLowerCase tag) (JS.toLowerCase q))
          (tags video).

Definition filteredVideos (st : State) : list VideoFile :=
  filter (matchesQuery (searchQuery st)) (videos st).

Definition suggestTags (st : State) (video : VideoFile) : list string :=
  let allTags := JS.fromSet (flat_map tags (videos st)) in
  JS.slice0 5 (filter (fun tag => negb (JS.arrIncludes (tags video) tag)) allTags).

(** ** The duration resolver: [getVideoDuration] *)

Module Duration.

(** [Math.trunc]. *)
Definition trunc (x : Q) : Z :=
  if Qle_bool 0 x then Qfloor x else Qceiling x.

(** The remainder operator [a % b] on numbers: the sign follows the
    dividend. *)
Definition rem (a b : Q) : Q :=
  (a - b * inject_Z (trunc (a / b)))%Q.

(** [Number.prototype.toString] on an integer. *)
Definition toString (z : Z) : string :=
  NilZero.string_of_int (Z.to_int z).

(** The body of [video.onloadedmetadata]: the text handed to
    [resolve]. *)
Definition format (duration : Q) : string :=
  let minutes := Qfloor (duration / 60) in
  let seconds := Qfloor (rem duration 60) in
  String.append (toString minutes)
    (String.append ":" (JS.padStart0 2 (toString seconds))).

(** A promise is pending, fulfilled with a value, or rejected. *)
Inductive Promise :=
| Pending
| Fulfilled (value : string)
| Rejected (reason : string).

(** [resolve(v)]: settles a pending promise, and does nothing to a
    settled one. *)
Definition resolve (v : string) (p : Promise) : Promise :=
  match p with
  | Pending => Fulfilled v
  | _ => p
  end.

(** What the video element reports once [video.src] is set. *)
Inductive MediaEvent :=
| LoadedMetadata (duration : Q)
| LoadError.

(** The two handlers the executor installs. *)
Definition handle (p : Promise) (e : MediaEvent) : Promise :=
  match e with
  | LoadedMetadata d => resolve (format d) p
  | LoadError => resolve "Unknown" p
  end.

(** The promise of [getVideoDuration] after the element has delivered
    the events [es], in order. *)
Definition getVideoDuration (es : list MediaEvent) : Promise :=
  fold_left handle es Pending.

End Duration.

(** ** The vocabulary of the properties *)

Local Notation "a +++ b" := (String.append a b)
  (at level 60, right associativity).

(** [q] occurs in [s] up to the case of letters: some contiguous part
    of [s] equals [q] once both are lower-cased. *)
Definition ContainsCI (s q : string) : Prop :=
  exists pre mid post,
    s = pre +++ mid +++ post /\ JS.toLowerCase mid = JS.toLowerCase q.

(** The texts [/20\d{2}/] can match: "20" and two decimal digits. *)
Definition IsYear (y : string) : Prop :=
  exists d1 d2,
    y = String "2" (String "0" (String d1 (String d2 ""))) /\
    isDigit d1 = true /\ isDigit d2 = true.

(** [y] is the leftmost year text of [s]: it occurs after [pre], and no
    year text of [s] starts further left. *)
Definition FirstYear (s y : string) : Prop :=
  exists pre post,
    s = pre +++ y +++ post /\ IsYear y /\
    forall pre' y' post',
      s = pre' +++ y' +++ post' -> IsYear y' ->
      String.length pre <= String.length pre'.

(** The keyword rules as the specification lists them: the keywords of a
    rule, and the label it yields. *)
Definition keywordRules : list (list string * string) :=
  [ (["tutorial"; "how-to"], "tutorial");
    (["meeting"; "call"], "meeting");
    (["presentation"; "demo"], "presentation");
    (["screen"; "recording"], "screen-recording");
    (["webinar"], "webinar");
    (["interview"], "interview");
    (["4k"], "4K");
    (["1080p"; "hd"], "HD");
    (["final"], "final");
    (["draft"], "draft") ].

(** A rule fires on a file name that contains one of its keywords, up to
    the case of letters. *)
Definition RuleFires (filename : string) (r : list string * string) : Prop :=
  exists k, In k (fst r) /\ ContainsCI filename k.

(** The labels the rules give a file name: the label of each keyword
    rule that fires, and the leftmost year text. *)
Definition Inferred (filename l : string) : Prop :=
  (exists r, In r keywordRules /\ RuleFires filename r /\ l = snd r) \/
  FirstYear filename l.

(** The test of a rule as [generateAutoTags] runs it, on the lower-cased
    file name. *)
Definition ruleFiresb (lower : string) (r : list string * string) : bool :=
  existsb (JS.includes lower) (fst r).

(** The array [tags] of [generateAutoTags] when it reaches [return]. *)
Definition firedTags (filename : string) : list string :=
  let tags := [] in
  let lower := JS.toLowerCase filename in
  let tags := pushIf (JS.includes lower "tutorial" || JS.includes lower "how-to") "tutorial" tags in
  let tags := pushIf (JS.includes lower "meeting" || JS.includes lower "call") "meeting" tags in
  let tags := pushIf (JS.includes lower "presentation" || JS.includes lower "demo") "presentation" tags in
  let tags := pushIf (JS.includes lower "screen" || JS.includes lower "recording") "screen-recording" tags in
  let tags := pushIf (JS.includes lower "webinar") "webinar" tags in
  let tags := pushIf (JS.includes lower "interview") "interview" tags in
  let tags :=
    match yearMatch filename with
    | Some y => tags ++ [y]
    | None => tags
    end in
  let tags := pushIf (JS.includes lower "4k") "4K" tags in
  let tags := pushIf (JS.includes lower "1080p" || JS.includes lower "hd") "HD" tags in
  let tags := pushIf (JS.includes lower "final") "final" tags in
  pushIf (JS.includes lower "draft") "draft" tags.

(** [l1] is [l2] with some elements left out, the others in place. *)
Inductive Subseq {A : Type} : list A -> list A -> Prop :=
| Subseq_nil : Subseq [] []
| Subseq_skip x l1 l2 : Subseq l1 l2 -> Subseq l1 (x :: l2)
| Subseq_keep x l1 l2 : Subseq l1 l2 -> Subseq (x :: l1) (x :: l2).

(** [x] stands somewhere before [y] in [l]. *)
Definition Before {A : Type} (x y : A) (l : list A) : Prop :=
  exists a b c, l = a ++ x :: b ++ y :: c.

(** An entry matches a query when its name, or one of its labels,
    contains the query up to the case of letters. *)
Definition Matches (q : string) (video : VideoFile) : Prop :=
  ContainsCI (name video) q \/
  exists tag, In tag (tags video) /\ ContainsCI tag q.

(** Entries used in the examples below. *)
Definition entry (i n : string) (ts : list string) : VideoFile :=
  {| id := i; name := n; size := 1024; duration := Some "1:05";
     uploadDate := 0; tags := ts; thumbnail := None;
     url := String.append "blob:" i; type := "video/mp4" |}.

(** A state with the given store, query and selection. *)
Definition library (vs : list VideoFile) (q : string)
    (sel : option VideoFile) : State :=
  {| videos := vs; searchQuery := q; selectedVideo := sel;
     isUploading := false; agentMessage := ""; revoked := [] |}.

(** A small library: three entries. *)
Definition sampleVideos : list VideoFile :=
  [ entry "v1" "MEETING_notes.mp4" ["meeting"];
    entry "v2" "holiday.mov" ["untagged"];
    entry "v3" "standup.mp4" ["Weekly-Meeting"; "draft"] ].

(** The candidates of [suggestTags] before the cut to five. *)
Definition candidates (st : State) (video : VideoFile) : list string :=
  filter (fun tag => negb (JS.arrIncludes (tags video) tag))
         (JS.fromSet (flat_map tags (videos st))).

(** A library whose labels are a, b, c, d, e and f, and a target that
    holds a. *)
Definition abcLibrary : State :=
  library [ entry "v1" "one.mp4" ["a"; "b"; "c"];
            entry "v2" "two.mp4" ["c"; "d"; "a"; "e"; "f"] ] "" None.

Definition abcTarget : VideoFile := entry "v1" "one.mp4" ["a"].

(** Everything the page does to its state, as one type of actions. *)
Inductive Action :=
| Import (f : FileInput) (d : string)
| Delete (videoId : string)
| AddTag (videoId tag : string)
| RemoveTag (videoId tag : string)
| Select (v : VideoFile).

(** The state after one action, and after a list of them. *)
Definition step (st : State) (a : Action) : State :=
  match a with
  | Import f d => resumeUpload f d st
  | Delete videoId => deleteVideo videoId st
  | AddTag videoId tag => addTag videoId tag st
  | RemoveTag videoId tag => removeTag videoId tag st
  | Select v => selectVideo v st
  end.

Definition run (acts : list Action) (st : State) : State :=
  fold_left step acts st.

(** No entry of the store carries a label twice. *)
Definition LabelsDistinct (st : State) : Prop :=
  forall v, In v (videos st) -> NoDup (tags v).

(** No entry of the store has the identifier [videoId]. *)
Definition Absent (videoId : string) (st : State) : Prop :=
  forall v, In v (videos st) -> id v <> videoId.

(** The function [addTag] maps over the store. *)
Definition addOne (videoId tag : string) (v : VideoFile) : VideoFile :=
  if String.eqb (id v) videoId && negb (JS.arrIncludes (tags v) tag)
  then withTags v (tags v ++ [tag]) else v.

(** The function [removeTag] maps over the store. *)
Definition dropOne (videoId tag : string) (v : VideoFile) : VideoFile :=
  if String.eqb (id v) videoId
  then withTags v (filter (fun t => negb (String.eqb t tag)) (tags v))
  else v.

(** A file whose duration is still awaited. *)
Definition pendingFile : FileInput :=
  {| fileName := "clip.mp4"; fileSize := 2048; fileType := "video/mp4";
     objectURL := "blob:clip"; randomId := "k3j9x2m1p"; now := 0 |}.

(** Two actions can put "untagged" on an entry with the identifier
    [videoId]: the user adding that very label to it, and an import
    that draws the same identifier again.  [NotRestoring] holds of
    every other action. *)
Definition NotRestoring (videoId : string) (a : Action) : Prop :=
  match a with
  | AddTag i t => ~ (i = videoId /\ t = "untagged")
  | Import f _ => randomId f <> videoId
  | _ => True
  end.

(** No entry with the identifier [videoId] carries "untagged". *)
Definition Untagless (videoId : string) (st : State) : Prop :=
  forall v, In v (videos st) -> id v = videoId -> ~ In "untagged" (tags v).


(** ** The rest of the page *)

(** [onChange={(e) => setSearchQuery(e.target.value)}] *)
Definition setSearchQuery (q : string) (st : State) : State :=
  {| videos := videos st; searchQuery := q;
     selectedVideo := selectedVideo st; isUploading := isUploading st;
     agentMessage := agentMessage st; revoked := revoked st |}.

(** [setIsUploading(b); setAgentMessage(msg)] *)
Definition setUploading (b : bool) (msg : string) (st : State) : State :=
  {| videos := videos st; searchQuery := searchQuery st;
     selectedVideo := selectedVideo st; isUploading := b;
     agentMessage := msg; revoked := revoked st |}.

(** The message that ends [handleFileUpload], with [files.length] in
    decimal. *)
Definition addedMessage (n : nat) : string :=
  String.append " Agent: Successfully added "
    (String.append (NilZero.string_of_uint (Nat.to_uint n))
       " video(s). I've auto-tagged them and they're ready to manage!").

(** The [for] loop of [handleFileUpload].  Each file comes with the
    events its video element delivers.  The loop awaits the promise of
    a file before it turns to the next one; when a promise stays
    pending the loop never resumes, and the flag tells so. *)
Fixpoint uploadLoop (files : list (FileInput * list Duration.MediaEvent))
    (st : State) : State * bool :=
  match files with
  | [] => (st, true)
  | (f, es) :: rest =>
      match Duration.getVideoDuration es with
      | Duration.Fulfilled d => uploadLoop rest (resumeUpload f d st)
      | _ => (st, false)
      end
  end.

(** [handleFileUpload], run without other events in between.  [None] is
    the [files] of an input without a file list. *)
Definition handleFileUpload
    (files : option (list (FileInput * list Duration.MediaEvent)))
    (st : State) : State :=
  match files with
  | None => st
  | Some fs =>
      let st1 := setUploading true " Agent: Processing your videos..." st in
      let (st2, finished) := uploadLoop fs st1 in
      if finished
      then setUploading false (addedMessage (List.length fs)) st2
      else st2
  end.


(** What the user can do on the rendered page.  Cards, labels and
    suggestions are addressed by their position in what is rendered. *)
Inductive UIEvent :=
| ClickVideo (i : nat)
| ClickDelete (i : nat)
| ClickRemoveTag (j : nat)
| EnterTag (value : string)
| ClickSuggestion (j : nat)
| TypeSearch (q : string)
| FileReady (f : FileInput) (es : list Duration.MediaEvent).

(** The handlers the render of [st] attaches.  A position with nothing
    rendered at it has no handler; the details panel exists only while
    an entry is selected; Enter in the label box acts only on a
    non-empty value. *)
Definition ui (st : State) (e : UIEvent) : State :=
  match e with
  | ClickVideo i =>
      match nth_error (filteredVideos st) i with
      | Some video => selectVideo video st
      | None => st
      end
  | ClickDelete i =>
      match nth_error (filteredVideos st) i with
      | Some video => deleteVideo (id video) st
      | None => st
      end
  | ClickRemoveTag j =>
      match selectedVideo st with
      | Some sel =>
          match nth_error (tags sel) j with
          | Some tag => removeTag (id sel) tag st
          | None => st
          end
      | None => st
      end
  | EnterTag value =>
      match selectedVideo st with
      | Some sel =>
          if String.eqb value "" then st else addTag (id sel) value st
      | None => st
      end
  | ClickSuggestion j =>
      match selectedVideo st with
      | Some sel =>
          match nth_error (suggestTags st sel) j with
          | Some tag => addTag (id sel) tag st
          | None => st
          end
      | None => st
      end
  | TypeSearch q => setSearchQuery q st
  | FileReady f es =>
      match Duration.getVideoDuration es with
      | Duration.Fulfilled d => resumeUpload f d st
      | _ => st
      end
  end.

(** The state after a session: the events [es], from the empty page. *)
Definition session (es : list UIEvent) : State :=
  fold_left ui es initialState.


(** [v] with its labels left out: all that label edits must keep. *)
Definition sansTags (v : VideoFile) : VideoFile := withTags v [].

(** The text a promise of [getVideoDuration] hands to the loop that
    awaits it. *)
Definition settledText (es : list Duration.MediaEvent) : string :=
  match Duration.getVideoDuration es with
  | Duration.Fulfilled d => d
  | _ => ""
  end.

(** The entry the loop appends for a file and the events of its video
    element. *)
Definition importedEntry (fe : FileInput * list Duration.MediaEvent)
    : VideoFile :=
  withDuration (newVideo (fst fe)) (settledText (snd fe)).

(** What the page allows: the actions its handlers can take in the
    state [st].  A card that is clicked or deleted is one of the list;
    labels are added to and removed from the selected entry only; a
    label typed in is not empty, a label clicked is a suggestion or, to
    remove it, a label of the selected copy; the duration of an import
    is what the promise was fulfilled with. *)
Definition UIGuard (st : State) (a : Action) : Prop :=
  match a with
  | Select v => In v (filteredVideos st)
  | Delete i => exists v, In v (filteredVideos st) /\ id v = i
  | AddTag i t =>
      exists sel, selectedVideo st = Some sel /\ i = id sel /\
                  (t <> "" \/ In t (suggestTags st sel))
  | RemoveTag i t =>
      exists sel, selectedVideo st = Some sel /\ i = id sel /\
                  In t (tags sel)
  | Import f d => d = "Unknown" \/ exists q, d = Duration.format q
  end.

(** The selected copy agrees with an entry of the store in every field
    but the labels, and carries the same labels, whatever their number
    and order. *)
Definition MirrorOK (st : State) : Prop :=
  forall sel, selectedVideo st = Some sel ->
    exists u, In u (videos st) /\ sansTags u = sansTags sel /\
              forall t, In t (tags sel) <-> In t (tags u).

(** No entry of the store, and no selected copy, carries the empty
    label; no entry of the store carries a label twice. *)
Definition LabelsClean (st : State) : Prop :=
  (forall v, In v (videos st) -> NoDup (tags v) /\ ~ In "" (tags v)) /\
  (forall sel, selectedVideo st = Some sel -> ~ In "" (tags sel)).


(** The identifier and the object URL that an event brings in: those
    of the file, for an import. *)
Definition eventIds (e : UIEvent) : list string :=
  match e with
  | FileReady f _ => [randomId f]
  | _ => []
  end.

Definition eventUrls (e : UIEvent) : list string :=
  match e with
  | FileReady f _ => [objectURL f]
  | _ => []
  end.

(** The identifiers and the object URLs that the imports of a session
    draw. *)
Definition importedIds (es : list UIEvent) : list string :=
  flat_map eventIds es.

Definition importedUrls (es : list UIEvent) : list string :=
  flat_map eventUrls es.

(** The bookkeeping of identifiers and URLs: the entries of the store
    have distinct identifiers, all among [ids]; the URLs of the store
    and the released URLs are distinct from one another, all among
    [urls]. *)
Definition Tracked (st : State) (ids urls : list string) : Prop :=
  NoDup (map id (videos st)) /\
  (forall x, In x (map id (videos st)) -> In x ids) /\
  NoDup (map url (videos st) ++ revoked st) /\
  (forall x, In x (map url (videos st) ++ revoked st) -> In x urls).

(** * Properties *)

(** ** Strings: substrings and case folding *)

Section StringFacts.

Lemma append_nil_r (s : string) : s +++ "" = s.
Proof. induction s; simpl; congruence. Qed.

Lemma append_assoc (a b c : string) : (a +++ b) +++ c = a +++ b +++ c.
Proof. induction a; simpl; congruence. Qed.

Lemma length_append (a b : string) :
  String.length (a +++ b) = String.length a + String.length b.
Proof. induction a; simpl; congruence. Qed.

Lemma append_inv_length (a b a' b' : string) :
  a +++ b = a' +++ b' -> String.length a = String.length a' ->
  a = a' /\ b = b'.
Proof.
  revert a'. induction a as [|c a IH]; intros [|c' a'] E L;
    simpl in *; try discriminate; auto.
  injection E as -> E. destruct (IH a' E) as [-> ->]; auto.
Qed.

Lemma startsWith_spec (s p : string) :
  JS.startsWith s p = true <-> exists post, s = p +++ post.
Proof.
  revert s. induction p as [|a p IH]; intros s; simpl.
  - split; eauto.
  - destruct s as [|b s].
    + split; [discriminate | intros [post E]; discriminate].
    + rewrite andb_true_iff, Ascii.eqb_eq, IH. split.
      * intros [-> [post ->]]. eauto.
      * intros [post E]. injection E as -> ->. eauto.
Qed.

(** [includes] finds exactly the contiguous occurrences. *)
Lemma includes_spec (s sub : string) :
  JS.includes s sub = true <-> exists pre post, s = pre +++ sub +++ post.
Proof.
  induction s as [|c s IH]; simpl; rewrite orb_true_iff, startsWith_spec.
  - split.
    + intros [[post E] | F]; [exists "", post; exact E | discriminate].
    + intros [[|c pre] [post E]]; [left; eauto | discriminate].
  - rewrite IH. split.
    + intros [[post E] | [pre [post E]]].
      * exists "", post. exact E.
      * exists (String c pre), post. simpl. congruence.
    + intros [[|c' pre] [post E]].
      * left. eauto.
      * right. simpl in E. injection E as _ ->. eauto.
Qed.

Lemma includes_empty (s : string) : JS.includes s "" = true.
Proof. apply includes_spec. exists "", s. reflexivity. Qed.

Lemma toLowerCase_append (a b : string) :
  JS.toLowerCase (a +++ b) = JS.toLowerCase a +++ JS.toLowerCase b.
Proof. induction a; simpl; congruence. Qed.

Lemma toLowerCase_split (s x y : string) :
  JS.toLowerCase s = x +++ y ->
  exists a b, s = a +++ b /\ JS.toLowerCase a = x /\ JS.toLowerCase b = y.
Proof.
  revert s. induction x as [|c x IH]; intros s E; simpl in E.
  - exists "", s. auto.
  - destruct s as [|d s]; simpl in E; [discriminate|].
    injection E as Ec E. destruct (IH s E) as (a & b & -> & <- & <-).
    exists (String d a), b. simpl. rewrite Ec. auto.
Qed.

Lemma lowerChar_idem (c : ascii) : JS.lowerChar (JS.lowerChar c) = JS.lowerChar c.
Proof.
  destruct c as [[] [] [] [] [] [] [] []]; reflexivity.
Qed.

Lemma toLowerCase_idem (s : string) :
  JS.toLowerCase (JS.toLowerCase s) = JS.toLowerCase s.
Proof. induction s; simpl; rewrite ?lowerChar_idem; congruence. Qed.

Lemma includes_lower_spec (s q : string) :
  JS.includes (JS.toLowerCase s) (JS.toLowerCase q) = true <-> ContainsCI s q.
Proof.
  rewrite includes_spec. split.
  - intros (pre & post & E).
    apply toLowerCase_split in E. destruct E as (a & r & -> & _ & E).
    apply toLowerCase_split in E. destruct E as (m & b & -> & E & _).
    exists a, m, b. auto.
  - intros (pre & mid & post & -> & E).
    exists (JS.toLowerCase pre), (JS.toLowerCase post).
    now rewrite !toLowerCase_append, E.
Qed.

(** For a keyword already in lower case, as all keywords of the page
    are. *)
Lemma includes_keyword_spec (s k : string) :
  JS.toLowerCase k = k ->
  (JS.includes (JS.toLowerCase s) k = true <-> ContainsCI s k).
Proof. intros E. rewrite <- includes_lower_spec, E. reflexivity. Qed.


End StringFacts.

(** ** The year pattern *)

Section YearFacts.

Lemma IsYear_length (y : string) : IsYear y -> String.length y = 4.
Proof. intros (d1 & d2 & -> & _). reflexivity. Qed.

Lemma yearAt_spec (s y : string) :
  yearAt s = Some y <-> IsYear y /\ exists post, s = y +++ post.
Proof.
  split.
  - unfold yearAt. intros H.
    destruct s as [|c0 s]; [discriminate|].
    destruct c0 as [[] [] [] [] [] [] [] []]; try discriminate.
    destruct s as [|c1 s]; [discriminate|].
    destruct c1 as [[] [] [] [] [] [] [] []]; try discriminate.
    destruct s as [|d1 [|d2 post]]; try discriminate.
    destruct (isDigit d1 && isDigit d2) eqn:D; [|discriminate].
    injection H as <-. apply andb_true_iff in D. split.
    + exists d1, d2. tauto.
    + exists post. reflexivity.
  - intros [(d1 & d2 & -> & D1 & D2) [post ->]]. unfold yearAt. simpl.
    now rewrite D1, D2.
Qed.

Lemma yearAt_none (s y post : string) :
  yearAt s = None -> IsYear y -> s <> y +++ post.
Proof.
  intros N Y E.
  assert (H : yearAt s = Some y) by (apply yearAt_spec; eauto).
  congruence.
Qed.

(** [yearMatch] returns a year text that occurs leftmost. *)
Lemma yearMatch_sound (s y : string) :
  yearMatch s = Some y -> FirstYear s y.
Proof.
  induction s as [|c s IH]; simpl.
  - discriminate.
  - destruct (yearAt (String c s)) as [y0|] eqn:A.
    + intros [= ->]. apply yearAt_spec in A. destruct A as [Y [post E]].
      exists "", post. repeat split; auto. intros; simpl; lia.
    + intros M. destruct (IH M) as (pre & post & -> & Y & Least).
      exists (String c pre), post. repeat split; auto.
      intros [|c' pre'] y' post' E Y'.
      * exfalso. exact (yearAt_none _ _ _ A Y' E).
      * simpl in E. injection E as _ E. simpl.
        apply le_n_S. eapply Least; eauto.
Qed.

(** [yearMatch] fails only when no year text occurs. *)
Lemma yearMatch_none (s pre y post : string) :
  yearMatch s = None -> IsYear y -> s <> pre +++ y +++ post.
Proof.
  revert pre. induction s as [|c s IH]; intros pre N Y E.
  - apply IsYear_length in Y.
    apply (f_equal String.length) in E. rewrite !length_append in E.
    simpl in E. lia.
  - simpl in N. destruct (yearAt (String c s)) eqn:A; [discriminate|].
    destruct pre as [|c' pre].
    + exact (yearAt_none _ _ _ A Y E).
    + simpl in E. injection E as _ E. exact (IH pre N Y E).
Qed.

Lemma FirstYear_unique (s y y' : string) :
  FirstYear s y -> FirstYear s y' -> y = y'.
Proof.
  intros (p & q & E & Y & L) (p' & q' & E' & Y' & L').
  assert (String.length p = String.length p').
  { apply Nat.le_antisymm; [eapply L | eapply L']; eauto. }
  rewrite E in E'. apply append_inv_length in E'; auto.
  destruct E' as [_ E']. apply append_inv_length in E'; [tauto|].
  now rewrite (IsYear_length _ Y), (IsYear_length _ Y').
Qed.

Lemma yearMatch_spec (s y : string) :
  yearMatch s = Some y <-> FirstYear s y.
Proof.
  split; [apply yearMatch_sound|].
  intros F. destruct (yearMatch s) as [y'|] eqn:M.
  - f_equal. eapply FirstYear_unique; eauto using yearMatch_sound.
  - destruct F as (p & q & E & Y & _).
    exfalso. exact (yearMatch_none _ _ _ _ M Y E).
Qed.

End YearFacts.

(** ** Tag inference *)

Lemma generateAutoTags_firedTags (filename : string) :
  generateAutoTags filename =
  if 0 <? List.length (firedTags filename) then firedTags filename
  else ["untagged"].
Proof. reflexivity. Qed.

Lemma In_pushIf (c : bool) (t : string) (tags : list string) (l : string) :
  In l (pushIf c t tags) <-> In l tags \/ (c = true /\ l = t).
Proof.
  unfold pushIf. destruct c.
  - rewrite in_app_iff. simpl. intuition congruence.
  - intuition congruence.
Qed.

Lemma In_pushYear (m : option string) (tags : list string) (l : string) :
  In l (match m with Some y => tags ++ [y] | None => tags end) <->
  In l tags \/ m = Some l.
Proof.
  destruct m as [y|].
  - rewrite in_app_iff. simpl. intuition congruence.
  - intuition congruence.
Qed.

Lemma ruleFiresb_spec (filename : string) (r : list string * string) :
  Forall (fun k => JS.toLowerCase k = k) (fst r) ->
  (ruleFiresb (JS.toLowerCase filename) r = true <-> RuleFires filename r).
Proof.
  intros L. unfold ruleFiresb, RuleFires. rewrite existsb_exists.
  rewrite Forall_forall in L.
  split; intros (k & I & H); exists k; split; auto;
    apply (includes_keyword_spec filename k (L k I)); exact H.
Qed.

Lemma keywordRules_lower :
  Forall (fun r => Forall (fun k => JS.toLowerCase k = k) (fst r)) keywordRules.
Proof. repeat constructor. Qed.

Lemma Inferred_bool (filename l : string) :
  Inferred filename l <->
  Exists (fun r => ruleFiresb (JS.toLowerCase filename) r = true /\ l = snd r)
         keywordRules \/
  yearMatch filename = Some l.
Proof.
  unfold Inferred. rewrite yearMatch_spec, Exists_exists.
  pose proof keywordRules_lower as L. rewrite Forall_forall in L.
  split; (intros [(r & I & F & E) | Y]; [left; exists r | right; exact Y]);
    repeat split; auto; apply (ruleFiresb_spec filename r (L r I)); exact F.
Qed.

(** The array built by the rule chain holds exactly the inferred
    labels. *)
Lemma In_firedTags (filename l : string) :
  In l (firedTags filename) <-> Inferred filename l.
Proof.
  rewrite Inferred_bool. unfold firedTags, keywordRules.
  rewrite !In_pushIf, In_pushYear, !In_pushIf.
  rewrite !Exists_cons, Exists_nil.
  cbn [ruleFiresb existsb fst snd In]. rewrite !orb_false_r.
  tauto.
Qed.

Lemma firedTags_nonempty_iff (filename : string) :
  firedTags filename <> [] <-> exists l, Inferred filename l.
Proof.
  split.
  - destruct (firedTags filename) as [|l t] eqn:E; [congruence|].
    intros _. exists l. apply In_firedTags. rewrite E. now left.
  - intros [l I] E. apply In_firedTags in I. rewrite E in I. exact I.
Qed.

Lemma generateAutoTags_cases (filename : string) :
  ((forall l, ~ Inferred filename l) /\
   generateAutoTags filename = ["untagged"]) \/
  ((exists l, Inferred filename l) /\
   generateAutoTags filename = firedTags filename).
Proof.
  rewrite generateAutoTags_firedTags.
  pose proof (firedTags_nonempty_iff filename) as NE.
  destruct (firedTags filename) as [|l0 t] eqn:E.
  - left. split; [|reflexivity]. intros l I. apply NE; eauto.
  - right. split; [|reflexivity]. apply NE. discriminate.
Qed.

Lemma In_generateAutoTags (filename l : string) :
  In l (generateAutoTags filename) <->
  Inferred filename l \/
  ((forall l', ~ Inferred filename l') /\ l = "untagged").
Proof.
  destruct (generateAutoTags_cases filename) as [[N ->] | [[l1 I1] ->]].
  - simpl. split.
    + intros [<- | []]. right. auto.
    + intros [I | [_ ->]]; [destruct (N _ I) | now left].
  - rewrite In_firedTags. split; [tauto|].
    intros [I | [N _]]; [exact I | destruct (N _ I1)].
Qed.



(** The three file names the specification tests. *)
Example generateAutoTags_meeting :
  generateAutoTags "Team_Meeting_2024_final.mp4" = ["meeting"; "2024"; "final"].
Proof. reflexivity. Qed.

Example generateAutoTags_random_clip :
  generateAutoTags "random_clip.mov" = ["untagged"].
Proof. reflexivity. Qed.

Example generateAutoTags_all_rules :
  generateAutoTags "How-To call DEMO Screen webinar interview 2031 4K HD final draft" =
  ["tutorial"; "meeting"; "presentation"; "screen-recording"; "webinar";
   "interview"; "2031"; "4K"; "HD"; "final"; "draft"].
Proof. reflexivity. Qed.

(** *** The labels of one file are pairwise distinct *)

Lemma NoDup_pushIf (c : bool) (t : string) (tags : list string) :
  NoDup tags -> ~ In t tags -> NoDup (pushIf c t tags).
Proof.
  intros N I. unfold pushIf. destruct c; auto.
  apply NoDup_app; auto.
  - repeat constructor. intros [].
  - intros x Hx [E | []]. subst. auto.
Qed.

Lemma NoDup_pushYear (m : option string) (tags : list string) :
  NoDup tags -> (forall y, m = Some y -> ~ In y tags) ->
  NoDup (match m with Some y => tags ++ [y] | None => tags end).
Proof.
  intros N I. destruct m as [y|]; auto.
  apply NoDup_app; auto.
  - repeat constructor. intros [].
  - intros x Hx [E | []]. subst. exact (I x eq_refl Hx).
Qed.

Lemma yearMatch_length (s y : string) :
  yearMatch s = Some y -> String.length y = 4.
Proof.
  intros M. apply yearMatch_sound in M.
  destruct M as (_ & _ & _ & Y & _). now apply IsYear_length.
Qed.

Lemma NoDup_firedTags (filename : string) : NoDup (firedTags filename).
Proof.
  unfold firedTags.
  repeat first [ apply NoDup_pushIf | apply NoDup_pushYear | apply NoDup_nil ];
    try (intros y M; apply yearMatch_length in M);
    rewrite ?In_pushIf, ?In_pushYear, ?In_pushIf; simpl;
    intuition (try discriminate; subst; try discriminate);
    match goal with
    | H : yearMatch _ = Some _ |- _ =>
        apply yearMatch_length in H; discriminate
    end.
Qed.

Lemma NoDup_generateAutoTags (filename : string) :
  NoDup (generateAutoTags filename).
Proof.
  rewrite generateAutoTags_firedTags.
  destruct (0 <? _).
  - apply NoDup_firedTags.
  - repeat constructor. intros [].
Qed.

(** *** The year rule *)

Lemma keyword_labels_not_year (r : list string * string) :
  In r keywordRules -> ~ IsYear (snd r).
Proof.
  intros I Y. apply IsYear_length in Y. revert Y.
  simpl in I. repeat (destruct I as [<- | I]; [discriminate|]). destruct I.
Qed.

Lemma Inferred_year (filename l : string) :
  Inferred filename l -> IsYear l -> FirstYear filename l.
Proof.
  intros [(r & I & _ & ->) | F] Y; auto.
  destruct (keyword_labels_not_year r I Y).
Qed.

(** A file name with a year text in it has a leftmost one. *)
Lemma FirstYear_exists (filename pre y post : string) :
  filename = pre +++ y +++ post -> IsYear y ->
  exists y1, FirstYear filename y1.
Proof.
  intros E Y. destruct (yearMatch filename) as [y1|] eqn:M.
  - exists y1. now apply yearMatch_sound.
  - destruct (yearMatch_none _ _ _ _ M Y E).
Qed.

(** C5.  When the file name contains "20" followed by two digits, the
    labels hold exactly one year label, the text of the leftmost such
    occurrence: it is among the labels, once, and every label that is a
    year text is that one.  So "recording_2021_vs_2022.mp4" gets "2021"
    and not "2022". *)
Theorem year_rule_first_occurrence_only
    (filename pre y post : string)
    (Hocc : filename = pre +++ y +++ post) (Hyear : IsYear y) :
  (exists y1,
      FirstYear filename y1 /\
      In y1 (generateAutoTags filename) /\
      count_occ string_dec (generateAutoTags filename) y1 = 1 /\
      forall l, In l (generateAutoTags filename) -> IsYear l -> l = y1) /\
  (In "2021" (generateAutoTags "recording_2021_vs_2022.mp4") /\
   ~ In "2022" (generateAutoTags "recording_2021_vs_2022.mp4")).
Proof.
  split.
  - destruct (FirstYear_exists _ _ _ _ Hocc Hyear) as [y1 F].
    pose proof (In_generateAutoTags filename) as Iff.
    assert (I1 : In y1 (generateAutoTags filename)).
    { apply Iff. left. now right. }
    exists y1. repeat split; auto.
    + apply NoDup_count_occ'; auto. apply NoDup_generateAutoTags.
    + intros l I Y. apply Iff in I. destruct I as [I | [_ ->]].
      * eapply FirstYear_unique; eauto using Inferred_year.
      * apply IsYear_length in Y. discriminate.
  - split; [simpl; tauto|].
    simpl. intros [H | [H | []]]; discriminate.
Qed.

Lemma year_rule_first_occurrence_only_witness :
  IsYear "2021" /\
  exists y1,
    FirstYear "recording_2021_vs_2022.mp4" y1 /\
    In y1 (generateAutoTags "recording_2021_vs_2022.mp4") /\
    count_occ string_dec (generateAutoTags "recording_2021_vs_2022.mp4") y1 = 1 /\
    forall l, In l (generateAutoTags "recording_2021_vs_2022.mp4") ->
              IsYear l -> l = y1.
Proof.
  assert (Y : IsYear "2021").
  { exists "2"%char, "1"%char. repeat split; reflexivity. }
  split; [exact Y|].
  exact (proj1 (year_rule_first_occurrence_only
                  "recording_2021_vs_2022.mp4" "recording_" "2021"
                  "_vs_2022.mp4" eq_refl Y)).
Defined.

(** Digits need no separator around them: the pattern matches inside a
    longer run of digits as well. *)
Example yearMatch_inside_digits :
  generateAutoTags "IMG_120345.mov" = ["2034"].
Proof. reflexivity. Qed.

(** ** Lists: subsequences and relative order *)

Section ListFacts.

Context {A : Type}.

Lemma Subseq_refl (l : list A) : Subseq l l.
Proof. induction l; [apply Subseq_nil | now apply Subseq_keep]. Qed.

Lemma Subseq_nil_l (l : list A) : Subseq [] l.
Proof. induction l; [apply Subseq_nil | now apply Subseq_skip]. Qed.

Lemma Subseq_In (l1 l2 : list A) (x : A) :
  Subseq l1 l2 -> In x l1 -> In x l2.
Proof. induction 1; simpl; intuition. Qed.

Lemma Subseq_filter (f : A -> bool) (l : list A) : Subseq (filter f l) l.
Proof.
  induction l as [|x l IH]; simpl; [apply Subseq_nil|].
  destruct (f x); [apply Subseq_keep | apply Subseq_skip]; exact IH.
Qed.


Lemma Subseq_firstn (n : nat) (l : list A) : Subseq (firstn n l) l.
Proof.
  revert n. induction l as [|x l IH]; intros [|n]; simpl;
    auto using Subseq_nil_l, Subseq_keep.
Qed.

Lemma Subseq_trans (l1 l2 l3 : list A) :
  Subseq l1 l2 -> Subseq l2 l3 -> Subseq l1 l3.
Proof.
  intros S12 S23. revert l1 S12.
  induction S23 as [|x l2 l3 S IH|x l2 l3 S IH]; intros l1 S12.
  - exact S12.
  - apply Subseq_skip. auto.
  - inversion S12; subst; [apply Subseq_skip | apply Subseq_keep]; auto.
Qed.

Lemma Subseq_app_inv (a b l : list A) :
  Subseq (a ++ b) l ->
  exists la lb, l = la ++ lb /\ Subseq a la /\ Subseq b lb.
Proof.
  intros S. remember (a ++ b) as ab eqn:E. revert a b E.
  induction S as [|x l1 l2 S IH|x l1 l2 S IH]; intros a b E.
  - symmetry in E. apply app_eq_nil in E. destruct E as [-> ->].
    exists [], []. repeat split; apply Subseq_nil.
  - destruct (IH a b E) as (la & lb & -> & Sa & Sb).
    exists (x :: la), lb. repeat split; auto using Subseq_skip.
  - destruct a as [|y a]; simpl in E.
    + subst b. exists [], (x :: l2).
      repeat split; auto using Subseq_nil, Subseq_keep.
    + injection E as E1 E2. subst y.
      destruct (IH a b E2) as (la & lb & -> & Sa & Sb).
      exists (x :: la), lb. repeat split; auto using Subseq_keep.
Qed.

Lemma Subseq_cons_inv (x : A) (b l : list A) :
  Subseq (x :: b) l -> exists la lb, l = la ++ x :: lb /\ Subseq b lb.
Proof.
  induction l as [|y l IH]; intros S; inversion S; subst.
  - destruct IH as (la & lb & -> & Sb); auto.
    exists (y :: la), lb. auto.
  - exists [], l. auto.
Qed.

(** Leaving elements out does not change the order of the others. *)
Lemma Subseq_Before (x y : A) (l1 l2 : list A) :
  Subseq l1 l2 -> Before x y l1 -> Before x y l2.
Proof.
  intros S (a & b & c & ->).
  apply Subseq_app_inv in S. destruct S as (la & l' & -> & _ & S).
  apply Subseq_cons_inv in S. destruct S as (lb & l'' & -> & S).
  apply Subseq_app_inv in S. destruct S as (lc & l3 & -> & _ & S).
  apply Subseq_cons_inv in S. destruct S as (ld & le & -> & _).
  exists (la ++ lb), (lc ++ ld), le.
  rewrite <- !app_assoc. reflexivity.
Qed.

Lemma last_cases (l : list A) : l = [] \/ exists l' x, l = l' ++ [x].
Proof.
  induction l as [|y l IH] using rev_ind; [left | right]; eauto.
Qed.

End ListFacts.

(** ** Search *)

Lemma matchesQuery_spec (q : string) (video : VideoFile) :
  matchesQuery q video = true <-> Matches q video.
Proof.
  unfold matchesQuery, Matches, JS.some.
  rewrite orb_true_iff, includes_lower_spec, existsb_exists.
  split; (intros [N | (tag & I & H)]; [left; exact N | right; exists tag]);
    split; auto; apply includes_lower_spec; exact H.
Qed.




Example filteredVideos_meeting :
  filteredVideos (library sampleVideos "meeting" None) =
  [ entry "v1" "MEETING_notes.mp4" ["meeting"];
    entry "v3" "standup.mp4" ["Weekly-Meeting"; "draft"] ].
Proof. reflexivity. Qed.

(** ** Suggestion *)

Lemma arrIncludes_spec (l : list string) (x : string) :
  JS.arrIncludes l x = true <-> In x l.
Proof.
  unfold JS.arrIncludes. rewrite existsb_exists. split.
  - intros (y & I & E). apply String.eqb_eq in E. now subst.
  - intros I. exists x. split; auto. apply String.eqb_refl.
Qed.

Lemma arrIncludes_false (l : list string) (x : string) :
  JS.arrIncludes l x = false <-> ~ In x l.
Proof.
  rewrite <- arrIncludes_spec. destruct (JS.arrIncludes l x); intuition congruence.
Qed.

Lemma fromSet_snoc (xs : list string) (x : string) :
  JS.fromSet (xs ++ [x]) = JS.setAdd (JS.fromSet xs) x.
Proof. unfold JS.fromSet. now rewrite fold_left_app. Qed.

Lemma In_setAdd (seen : list string) (x y : string) :
  In y (JS.setAdd seen x) <-> In y seen \/ y = x.
Proof.
  unfold JS.setAdd. destruct (JS.arrIncludes seen x) eqn:E.
  - apply arrIncludes_spec in E. intuition (subst; auto).
  - rewrite in_app_iff. simpl. intuition.
Qed.

(** A Set holds what went into it. *)
Lemma In_fromSet (xs : list string) (y : string) :
  In y (JS.fromSet xs) <-> In y xs.
Proof.
  induction xs as [|x xs IH] using rev_ind.
  - reflexivity.
  - rewrite fromSet_snoc, In_setAdd, IH, in_app_iff. simpl. intuition.
Qed.

(** A Set holds nothing twice. *)
Lemma NoDup_fromSet (xs : list string) : NoDup (JS.fromSet xs).
Proof.
  induction xs as [|x xs IH] using rev_ind.
  - constructor.
  - rewrite fromSet_snoc. unfold JS.setAdd.
    destruct (JS.arrIncludes (JS.fromSet xs) x) eqn:E; auto.
    apply arrIncludes_false in E. apply NoDup_app; auto.
    + repeat constructor. intros [].
    + intros y Iy [Ey | []]. subst. auto.
Qed.

(** A Set lists its elements in the order in which each was first
    added: what stands before [y] in the Set was seen before the first
    [y]. *)
Lemma fromSet_first_seen (xs a : list string) (y : string) (c : list string) :
  JS.fromSet xs = a ++ y :: c ->
  exists p q, xs = p ++ y :: q /\ ~ In y p /\ forall z, In z a -> In z p.
Proof.
  revert a y c. induction xs as [|x xs IH] using rev_ind; intros a y c E.
  - destruct a; discriminate.
  - rewrite fromSet_snoc in E. unfold JS.setAdd in E.
    destruct (JS.arrIncludes (JS.fromSet xs) x) eqn:Seen.
    + destruct (IH _ _ _ E) as (p & q & -> & Ny & Sub).
      exists p, (q ++ [x]). rewrite <- app_assoc. auto.
    + apply arrIncludes_false in Seen.
      destruct (last_cases c) as [-> | (c' & x' & ->)].
      * apply app_inj_tail in E. destruct E as [E ->].
        exists xs, []. repeat split; auto.
        -- intros I. apply Seen. now apply In_fromSet.
        -- intros z Iz. apply In_fromSet. now rewrite E.
      * change (a ++ y :: c' ++ [x']) with (a ++ (y :: c') ++ [x']) in E.
        rewrite app_assoc in E. apply app_inj_tail in E.
        destruct E as [E _].
        destruct (IH _ _ _ E) as (p & q & -> & Ny & Sub).
        exists p, (q ++ [x]). rewrite <- app_assoc. auto.
Qed.

Lemma fromSet_Before (xs : list string) (l1 l2 : string) :
  Before l1 l2 (JS.fromSet xs) ->
  exists p q r, xs = p ++ l1 :: q ++ l2 :: r /\ ~ In l2 (p ++ l1 :: q).
Proof.
  intros (a & b & c & E).
  change (a ++ l1 :: b ++ l2 :: c) with (a ++ (l1 :: b) ++ l2 :: c) in E.
  rewrite app_assoc in E.
  destruct (fromSet_first_seen _ _ _ _ E) as (p2 & r & -> & N2 & Sub).
  assert (I1 : In l1 p2).
  { apply Sub. apply in_or_app. right. now left. }
  apply in_split in I1. destruct I1 as (p & q & ->).
  exists p, q, r. split; auto. now rewrite <- app_assoc.
Qed.

Lemma suggestTags_candidates (st : State) (video : VideoFile) :
  suggestTags st video = firstn 5 (candidates st video).
Proof. reflexivity. Qed.

Lemma In_candidates (st : State) (video : VideoFile) (l : string) :
  In l (candidates st video) <->
  In l (flat_map tags (videos st)) /\ ~ In l (tags video).
Proof.
  unfold candidates.
  rewrite filter_In, In_fromSet, negb_true_iff, arrIncludes_false.
  reflexivity.
Qed.

Lemma NoDup_candidates (st : State) (video : VideoFile) :
  NoDup (candidates st video).
Proof. apply NoDup_filter, NoDup_fromSet. Qed.

Lemma NoDup_firstn {A} (n : nat) (l : list A) : NoDup l -> NoDup (firstn n l).
Proof.
  intros N. rewrite <- (firstn_skipn n l) in N. now apply NoDup_app_remove_r in N.
Qed.

(** C3.  Every label [suggestTags] returns is a label of some entry of
    the library and is not on the target; no label is returned twice;
    at most five are returned; they stand in the order in which the
    library first shows them; they are the first candidates in that
    order, all of them when fewer than five are returned.  For a
    library whose labels are a, b, c, d, e, f and a target holding only
    a, five labels are returned and a is not among them. *)
Theorem suggestTags_spec (st : State) (video : VideoFile) :
  let lib := flat_map tags (videos st) in
  let result := suggestTags st video in
  (forall l, In l result ->
             (exists v, In v (videos st) /\ In l (tags v)) /\
             ~ In l (tags video)) /\
  NoDup result /\
  List.length result <= 5 /\
  (forall l1 l2, Before l1 l2 result ->
     exists p q r, lib = p ++ l1 :: q ++ l2 :: r /\ ~ In l2 (p ++ l1 :: q)) /\
  (forall l, In l lib -> ~ In l (tags video) -> ~ In l result ->
     List.length result = 5 /\
     forall s, In s result ->
       exists p q r, lib = p ++ s :: q ++ l :: r /\ ~ In l (p ++ s :: q)) /\
  (List.length result < 5 ->
   forall l, In l lib -> ~ In l (tags video) -> In l result) /\
  ((forall l, In l lib <-> In l ["a"; "b"; "c"; "d"; "e"; "f"]) ->
   (forall l, In l (tags video) <-> l = "a") ->
   List.length result = 5 /\ ~ In "a" result).
Proof.
  intros lib result. subst result. rewrite suggestTags_candidates.
  set (C := candidates st video).
  assert (InC : forall l, In l C <-> In l lib /\ ~ In l (tags video))
    by apply In_candidates.
  assert (SubC : Subseq (firstn 5 C) (JS.fromSet lib)).
  { eapply Subseq_trans; [apply Subseq_firstn | apply Subseq_filter]. }
  assert (Part1 : forall l, In l (firstn 5 C) ->
            (exists v, In v (videos st) /\ In l (tags v)) /\
            ~ In l (tags video)).
  { intros l I. apply (Subseq_In _ _ _ (Subseq_firstn 5 C)) in I.
    apply InC in I. destruct I as [I N]. split; auto.
    apply in_flat_map in I. exact I. }
  assert (Part5 : forall l, In l lib -> ~ In l (tags video) ->
            ~ In l (firstn 5 C) ->
            List.length (firstn 5 C) = 5 /\
            forall s, In s (firstn 5 C) ->
              exists p q r, lib = p ++ s :: q ++ l :: r /\
                            ~ In l (p ++ s :: q)).
  { intros l Il Nl Nr.
    assert (Ic : In l C) by (apply InC; auto).
    rewrite <- (firstn_skipn 5 C) in Ic. apply in_app_or in Ic.
    destruct Ic as [Ic | Ic]; [contradiction|].
    split.
    - rewrite length_firstn. apply Nat.min_l.
      destruct (skipn 5 C) eqn:Sk; [destruct Ic|].
      apply (f_equal (@List.length _)) in Sk. rewrite length_skipn in Sk.
      simpl in Sk. lia.
    - intros s Is. apply fromSet_Before.
      apply Subseq_Before with (l1 := C); [apply Subseq_filter|].
      apply in_split in Is. destruct Is as (f1 & f2 & Ef).
      apply in_split in Ic. destruct Ic as (s1 & s2 & Es).
      exists f1, (f2 ++ s1), s2.
      rewrite <- (firstn_skipn 5 C), Ef, Es, <- !app_assoc. simpl.
      reflexivity. }
  split; [exact Part1|]. split; [|split; [|split; [|split; [|split]]]].
  - apply NoDup_firstn, NoDup_candidates.
  - apply firstn_le_length.
  - intros l1 l2 B. apply fromSet_Before. eapply Subseq_Before; eauto.
  - exact Part5.
  - intros Short l Il Nl.
    destruct (in_dec string_dec l (firstn 5 C)) as [I | N]; auto.
    destruct (Part5 l Il Nl N) as [Len _]. lia.
  - intros Hlib Htarget.
    assert (Len : List.length C = 5).
    { apply Nat.le_antisymm.
      - change 5 with (List.length ["b"; "c"; "d"; "e"; "f"]).
        apply NoDup_incl_length; [apply NoDup_candidates|].
        intros l I. apply InC in I. destruct I as [I N].
        apply Hlib in I. rewrite Htarget in N. simpl in *. intuition.
      - change 5 with (List.length ["b"; "c"; "d"; "e"; "f"]).
        apply NoDup_incl_length.
        + repeat constructor; simpl; intuition discriminate.
        + intros l I. apply InC. rewrite Hlib, Htarget. simpl in *.
          intuition (subst; discriminate). }
    split.
    + rewrite length_firstn, Len. reflexivity.
    + intros I. apply Part1 in I. destruct I as [_ N]. apply N.
      now apply Htarget.
Qed.

Lemma suggestTags_spec_witness :
  (forall l, In l (flat_map tags (videos abcLibrary)) <->
             In l ["a"; "b"; "c"; "d"; "e"; "f"]) /\
  (forall l, In l (tags abcTarget) <-> l = "a") /\
  List.length (suggestTags abcLibrary abcTarget) = 5 /\
  ~ In "a" (suggestTags abcLibrary abcTarget).
Proof.
  assert (Hlib : forall l, In l (flat_map tags (videos abcLibrary)) <->
                           In l ["a"; "b"; "c"; "d"; "e"; "f"]).
  { intros l. simpl. intuition. }
  assert (Htarget : forall l, In l (tags abcTarget) <-> l = "a").
  { intros l. simpl. intuition. }
  split; [exact Hlib|]. split; [exact Htarget|].
  exact (proj2 (proj2 (proj2 (proj2 (proj2 (proj2
           (suggestTags_spec abcLibrary abcTarget)))))) Hlib Htarget).
Defined.

Example suggestTags_first_seen :
  suggestTags abcLibrary abcTarget = ["b"; "c"; "d"; "e"; "f"].
Proof. reflexivity. Qed.

(** ** The store *)

Section StoreFacts.

Variables (videoId tag : string).

Lemma videos_addTag (st : State) :
  videos (addTag videoId tag st) = map (addOne videoId tag) (videos st).
Proof. reflexivity. Qed.

Lemma videos_removeTag (st : State) :
  videos (removeTag videoId tag st) = map (dropOne videoId tag) (videos st).
Proof. reflexivity. Qed.

Lemma addOne_other (v : VideoFile) : id v <> videoId -> addOne videoId tag v = v.
Proof.
  intros N. unfold addOne. apply String.eqb_neq in N. now rewrite N.
Qed.

Lemma addOne_present (v : VideoFile) : In tag (tags v) -> addOne videoId tag v = v.
Proof.
  intros I. unfold addOne. apply arrIncludes_spec in I. rewrite I.
  now rewrite andb_false_r.
Qed.

Lemma addOne_id (v : VideoFile) : id (addOne videoId tag v) = id v.
Proof. unfold addOne. destruct (_ && _); reflexivity. Qed.

Lemma addOne_has_tag (v : VideoFile) :
  id v = videoId -> In tag (tags (addOne videoId tag v)).
Proof.
  intros E. unfold addOne. rewrite E, String.eqb_refl. simpl.
  destruct (JS.arrIncludes (tags v) tag) eqn:A; simpl.
  - now apply arrIncludes_spec.
  - apply in_or_app. right. now left.
Qed.

Lemma addOne_idem (v : VideoFile) : addOne videoId tag (addOne videoId tag v) = addOne videoId tag v.
Proof.
  destruct (string_dec (id v) videoId) as [E | N].
  - apply addOne_present. rewrite <- (addOne_id v) in E.
    unfold addOne at 1. unfold addOne in E.
    destruct (String.eqb (id v) videoId &&
              negb (JS.arrIncludes (tags v) tag)) eqn:C; simpl in *.
    + apply in_or_app. right. now left.
    + rewrite E, String.eqb_refl in C. simpl in C.
      apply negb_false_iff in C. now apply arrIncludes_spec.
  - apply addOne_other. now rewrite addOne_id.
Qed.

Lemma addOne_NoDup (v : VideoFile) : NoDup (tags v) -> NoDup (tags (addOne videoId tag v)).
Proof.
  intros N. unfold addOne.
  destruct (String.eqb (id v) videoId); simpl; auto.
  destruct (JS.arrIncludes (tags v) tag) eqn:A; simpl; auto.
  apply arrIncludes_false in A. apply NoDup_app; auto.
  - repeat constructor. intros [].
  - intros x Ix [E | []]. subst. auto.
Qed.

Lemma dropOne_other (v : VideoFile) : id v <> videoId -> dropOne videoId tag v = v.
Proof.
  intros N. unfold dropOne. apply String.eqb_neq in N. now rewrite N.
Qed.

Lemma dropOne_id (v : VideoFile) : id (dropOne videoId tag v) = id v.
Proof. unfold dropOne. destruct (String.eqb _ _); reflexivity. Qed.

Lemma dropOne_tags (v : VideoFile) (t : string) :
  In t (tags (dropOne videoId tag v)) -> In t (tags v).
Proof.
  unfold dropOne. destruct (String.eqb _ _); simpl; auto.
  intros I. now apply filter_In in I.
Qed.

Lemma dropOne_NoDup (v : VideoFile) : NoDup (tags v) -> NoDup (tags (dropOne videoId tag v)).
Proof.
  intros N. unfold dropOne. destruct (String.eqb _ _); simpl; auto.
  now apply NoDup_filter.
Qed.

Lemma map_fixed {A} (f : A -> A) (l : list A) :
  (forall x, In x l -> f x = x) -> map f l = l.
Proof.
  induction l as [|x l IH]; simpl; intros H; auto.
  rewrite H, IH; auto.
Qed.

Lemma filter_all {A} (f : A -> bool) (l : list A) :
  (forall x, In x l -> f x = true) -> filter f l = l.
Proof.
  induction l as [|x l IH]; simpl; intros H; auto.
  rewrite H, IH; auto.
Qed.

Lemma videos_deleteVideo (st : State) :
  videos (deleteVideo videoId st) =
  filter (fun v => negb (String.eqb (id v) videoId)) (videos st).
Proof. reflexivity. Qed.

Lemma deleteVideo_removes (st : State) : Absent videoId (deleteVideo videoId st).
Proof.
  intros v I. rewrite videos_deleteVideo in I. apply filter_In in I.
  destruct I as [_ N]. apply negb_true_iff in N. now apply String.eqb_neq.
Qed.

Lemma deleteVideo_absent (st : State) :
  Absent videoId st ->
  videos (deleteVideo videoId st) = videos st /\
  revoked (deleteVideo videoId st) = revoked st.
Proof.
  intros Abs. split.
  - rewrite videos_deleteVideo. apply filter_all. intros v I.
    apply negb_true_iff, String.eqb_neq. auto.
  - unfold deleteVideo. simpl.
    destruct (find _ (videos st)) as [v|] eqn:F; auto.
    apply find_some in F. destruct F as [I E].
    apply String.eqb_eq in E. destruct (Abs v I E).
Qed.



End StoreFacts.

(** *** Labels stay distinct *)

Lemma LabelsDistinct_initial : LabelsDistinct initialState.
Proof. intros v []. Qed.

Lemma LabelsDistinct_step (st : State) (a : Action) :
  LabelsDistinct st -> LabelsDistinct (step st a).
Proof.
  intros D. destruct a as [f d | i | i t | i t | v]; simpl; intros u I.
  - simpl in I. apply in_app_or in I. destruct I as [I | [<- | []]]; auto.
    simpl. apply NoDup_generateAutoTags.
  - rewrite videos_deleteVideo in I. apply filter_In in I. apply D, I.
  - rewrite videos_addTag in I. apply in_map_iff in I.
    destruct I as (w & <- & I). apply addOne_NoDup. auto.
  - rewrite videos_removeTag in I. apply in_map_iff in I.
    destruct I as (w & <- & I). apply dropOne_NoDup. auto.
  - apply D, I.
Qed.

(** Whatever the user does, starting from the empty library, no entry
    of the store carries a label twice. *)
Lemma LabelsDistinct_run (acts : list Action) :
  LabelsDistinct (run acts initialState).
Proof.
  unfold run. generalize LabelsDistinct_initial.
  generalize initialState. induction acts as [|a acts IH]; intros st D; auto.
  simpl. apply IH. now apply LabelsDistinct_step.
Qed.

(** *** Mutations addressed at a missing identifier *)




(** *** Adding a label *)

(** C8.  Adding a label twice leaves the store as adding it once does;
    afterwards every entry with the identifier carries the label, and,
    in a store whose entries carry no label twice, carries it exactly
    once. *)
Theorem addTag_idempotent_on_store (st : State) (videoId tag : string) :
  videos (addTag videoId tag (addTag videoId tag st)) =
  videos (addTag videoId tag st) /\
  (forall v, In v (videos (addTag videoId tag st)) -> id v = videoId ->
             In tag (tags v)) /\
  (LabelsDistinct st ->
   forall v, In v (videos (addTag videoId tag (addTag videoId tag st))) ->
             id v = videoId ->
             count_occ string_dec (tags v) tag = 1).
Proof.
  assert (Has : forall v, In v (videos (addTag videoId tag st)) ->
                          id v = videoId -> In tag (tags v)).
  { intros v I E. rewrite videos_addTag in I. apply in_map_iff in I.
    destruct I as (w & <- & I). apply addOne_has_tag.
    now rewrite addOne_id in E. }
  assert (Idem : videos (addTag videoId tag (addTag videoId tag st)) =
                 videos (addTag videoId tag st)).
  { rewrite !videos_addTag, map_map. apply map_ext. apply addOne_idem. }
  split; [exact Idem|]. split; [exact Has|].
  intros D v I E. rewrite Idem in I.
  apply NoDup_count_occ'; auto.
  apply (LabelsDistinct_step st (AddTag videoId tag) D v I).
Qed.

Lemma addTag_idempotent_on_store_witness :
  LabelsDistinct (library sampleVideos "" None) /\
  forall v,
    In v (videos (addTag "v2" "final"
                    (addTag "v2" "final" (library sampleVideos "" None)))) ->
    id v = "v2" -> count_occ string_dec (tags v) "final" = 1.
Proof.
  assert (D : LabelsDistinct (library sampleVideos "" None)).
  { intros v I. simpl in I.
    destruct I as [<- | [<- | [<- | []]]]; simpl;
      repeat constructor; simpl; intuition discriminate. }
  split; [exact D|].
  exact (proj2 (proj2 (addTag_idempotent_on_store
                         (library sampleVideos "" None) "v2" "final")) D).
Defined.

Example addTag_twice :
  map tags (videos (addTag "v2" "final"
                      (addTag "v2" "final" (library sampleVideos "" None)))) =
  [["meeting"]; ["untagged"; "final"]; ["Weekly-Meeting"; "draft"]].
Proof. reflexivity. Qed.

(** *** Removing the last label *)

Lemma Untagless_step (videoId : string) (st : State) (a : Action) :
  NotRestoring videoId a -> Untagless videoId st ->
  Untagless videoId (step st a).
Proof.
  intros NR U. destruct a as [f d | i | i t | i t | w]; simpl in *;
    intros v I E.
  - apply in_app_or in I. destruct I as [I | [<- | []]]; [now apply U|].
    simpl in E. contradiction.
  - rewrite videos_deleteVideo in I. apply filter_In in I.
    apply U; tauto.
  - rewrite videos_addTag in I. apply in_map_iff in I.
    destruct I as (u & <- & I). rewrite addOne_id in E.
    unfold addOne.
    destruct (String.eqb (id u) i && negb (JS.arrIncludes (tags u) t)) eqn:C;
      [|now apply U].
    simpl. intros H. apply in_app_or in H. destruct H as [H | [-> | []]].
    + exact (U u I E H).
    + apply andb_true_iff in C. destruct C as [C _].
      apply String.eqb_eq in C. apply NR. split; congruence.
  - rewrite videos_removeTag in I. apply in_map_iff in I.
    destruct I as (u & <- & I). rewrite dropOne_id in E.
    intros H. apply dropOne_tags in H. exact (U u I E H).
  - now apply U.
Qed.

Lemma Untagless_run (videoId : string) (acts : list Action) (st : State) :
  Forall (NotRestoring videoId) acts -> Untagless videoId st ->
  Untagless videoId (run acts st).
Proof.
  unfold run. revert st. induction acts as [|a acts IH]; intros st F U; auto.
  inversion F; subst. simpl. apply IH; auto. now apply Untagless_step.
Qed.

(** C9.  When the entries with the identifier carry the single label
    [L], [removeTag] leaves them with no label at all, and "untagged"
    does not come back: whatever is done next, short of the user adding
    the label "untagged" to the entry by hand, the entry does not carry
    it. *)
Theorem removeTag_last_label_leaves_empty
    (st : State) (videoId L : string)
    (Hsingle : forall v, In v (videos st) -> id v = videoId -> tags v = [L]) :
  (forall v, In v (videos st) -> id v = videoId ->
             In (withTags v []) (videos (removeTag videoId L st))) /\
  (forall v, In v (videos (removeTag videoId L st)) -> id v = videoId ->
             tags v = []) /\
  (forall acts, Forall (NotRestoring videoId) acts ->
     forall v, In v (videos (run acts (removeTag videoId L st))) ->
               id v = videoId -> ~ In "untagged" (tags v)).
Proof.
  assert (Drop : forall v, In v (videos st) -> id v = videoId ->
                           dropOne videoId L v = withTags v []).
  { intros v I E. unfold dropOne. rewrite E, String.eqb_refl.
    rewrite (Hsingle v I E). simpl. now rewrite String.eqb_refl. }
  assert (Empty : forall v, In v (videos (removeTag videoId L st)) ->
                            id v = videoId -> tags v = []).
  { intros v I E. rewrite videos_removeTag in I. apply in_map_iff in I.
    destruct I as (u & <- & I). rewrite dropOne_id in E.
    now rewrite (Drop u I E). }
  split; [|split; [exact Empty|]].
  - intros v I E. rewrite videos_removeTag, <- (Drop v I E).
    now apply in_map.
  - intros acts F. apply Untagless_run; auto.
    intros v I E. rewrite (Empty v I E). intros [].
Qed.

Lemma removeTag_last_label_leaves_empty_witness :
  (forall v, In v (videos (library sampleVideos "" None)) -> id v = "v1" ->
             tags v = ["meeting"]) /\
  map tags (videos (removeTag "v1" "meeting" (library sampleVideos "" None))) =
  [[]; ["untagged"]; ["Weekly-Meeting"; "draft"]] /\
  forall v,
    In v (videos (run [AddTag "v1" "final"; RemoveTag "v1" "final";
                       Delete "v2"]
                      (removeTag "v1" "meeting"
                         (library sampleVideos "" None)))) ->
    id v = "v1" -> ~ In "untagged" (tags v).
Proof.
  assert (H : forall v, In v (videos (library sampleVideos "" None)) ->
                        id v = "v1" -> tags v = ["meeting"]).
  { intros v I. simpl in I.
    destruct I as [<- | [<- | [<- | []]]]; simpl; intros E;
      try discriminate; reflexivity. }
  split; [exact H|]. split; [reflexivity|].
  apply (proj2 (proj2 (removeTag_last_label_leaves_empty
                         (library sampleVideos "" None) "v1" "meeting" H))).
  repeat constructor; simpl; intros [A B]; discriminate.
Defined.

(** *** The selected copy *)

(** C10.  The selected entry is a copy of the entry the store holds.
    When [addTag] is given a label that the entry already carries, the
    store stays as it is, while the selected copy gets the label
    appended once more: it then carries the label twice and is no
    longer the entry the store holds. *)
Theorem addTag_existing_label_duplicates_in_selected
    (st : State) (sel : VideoFile) (videoId tag : string)
    (Hsel : selectedVideo st = Some sel)
    (Hid : id sel = videoId)
    (Hin : In sel (videos st))
    (Hhas : forall v, In v (videos st) -> id v = videoId -> In tag (tags v)) :
  let sel' := withTags sel (tags sel ++ [tag]) in
  videos (addTag videoId tag st) = videos st /\
  selectedVideo (addTag videoId tag st) = Some sel' /\
  count_occ string_dec (tags sel') tag =
    S (count_occ string_dec (tags sel) tag) /\
  2 <= count_occ string_dec (tags sel') tag /\
  ~ NoDup (tags sel') /\
  In sel (videos (addTag videoId tag st)) /\
  sel' <> sel.
Proof.
  intros sel'.
  assert (Same : videos (addTag videoId tag st) = videos st).
  { rewrite videos_addTag. apply map_fixed. intros v I.
    destruct (string_dec (id v) videoId) as [E | N].
    - apply addOne_present. auto.
    - now apply addOne_other. }
  assert (Cnt : count_occ string_dec (tags sel') tag =
                S (count_occ string_dec (tags sel) tag)).
  { subst sel'. simpl. rewrite count_occ_app. simpl.
    destruct (string_dec tag tag); [lia | congruence]. }
  assert (Pos : 1 <= count_occ string_dec (tags sel) tag).
  { apply (count_occ_In string_dec). auto. }
  split; [exact Same|]. split.
  { unfold addTag, selectedIs. simpl. rewrite Hsel, Hid, String.eqb_refl.
    reflexivity. }
  split; [exact Cnt|]. split; [lia|]. split; [|split].
  - intros N. apply (NoDup_count_occ string_dec) with (x := tag) in N. lia.
  - now rewrite Same.
  - intros E. apply (f_equal tags) in E. subst sel'. simpl in E.
    apply (f_equal (@List.length _)) in E. rewrite length_app in E.
    simpl in E. lia.
Qed.

Lemma addTag_existing_label_duplicates_in_selected_witness :
  selectedVideo
    (addTag "v1" "meeting"
       (library sampleVideos "" (Some (entry "v1" "MEETING_notes.mp4" ["meeting"])))) =
  Some (entry "v1" "MEETING_notes.mp4" ["meeting"; "meeting"]) /\
  videos
    (addTag "v1" "meeting"
       (library sampleVideos "" (Some (entry "v1" "MEETING_notes.mp4" ["meeting"])))) =
  sampleVideos.
Proof.
  pose (sel := entry "v1" "MEETING_notes.mp4" ["meeting"]).
  assert (Hhas : forall v, In v (videos (library sampleVideos "" (Some sel))) ->
                           id v = "v1" -> In "meeting" (tags v)).
  { intros v I. simpl in I.
    destruct I as [<- | [<- | [<- | []]]]; simpl; intros E;
      try discriminate; auto. }
  destruct (addTag_existing_label_duplicates_in_selected
              (library sampleVideos "" (Some sel)) sel "v1" "meeting"
              eq_refl eq_refl (or_introl eq_refl) Hhas)
    as (Same & Sel & _).
  split; [exact Sel | exact Same].
Defined.

(** ** The duration resolver *)

Module DurationFacts.

Import Duration.






Lemma floor_nonneg (d : Q) : (0 <= d)%Q -> (0 <= Qfloor d)%Z.
Proof.
  intros H. change 0%Z with (Qfloor 0). now apply Qfloor_resp_le.
Qed.


Lemma resolve_settled (es : list MediaEvent) (v : string) :
  fold_left handle es (Fulfilled v) = Fulfilled v.
Proof.
  induction es as [|e es IH]; simpl; auto. destruct e; exact IH.
Qed.

Lemma getVideoDuration_first (e : MediaEvent) (es : list MediaEvent) :
  getVideoDuration (e :: es) = handle Pending e.
Proof.
  unfold getVideoDuration. simpl. destruct e; simpl; apply resolve_settled.
Qed.

End DurationFacts.



(** C7.  The promise of [getVideoDuration] is never rejected, whatever
    the video element reports; the first event settles it, with a value;
    and when that event is a load error the value is "Unknown".  Before
    any event it is pending. *)
Theorem getVideoDuration_never_rejects (es : list Duration.MediaEvent) :
  (forall reason, Duration.getVideoDuration es <> Duration.Rejected reason) /\
  (forall e, exists v,
      Duration.getVideoDuration (e :: es) = Duration.Fulfilled v) /\
  Duration.getVideoDuration (Duration.LoadError :: es) =
    Duration.Fulfilled "Unknown" /\
  Duration.getVideoDuration [] = Duration.Pending.
Proof.
  split; [|split; [|split]].
  - intros reason. destruct es as [|e es].
    + discriminate.
    + rewrite DurationFacts.getVideoDuration_first. destruct e; discriminate.
  - intros e. rewrite DurationFacts.getVideoDuration_first.
    destruct e; simpl; eauto.
  - apply DurationFacts.getVideoDuration_first.
  - reflexivity.
Qed.

(** * Further properties of the page *)

(** ** Tag inference *)

Lemma lowerChar_digit (c : ascii) : isDigit (JS.lowerChar c) = isDigit c.
Proof. destruct c as [[] [] [] [] [] [] [] []]; reflexivity. Qed.

Lemma lowerChar_fixes_digit (c : ascii) :
  isDigit c = true -> JS.lowerChar c = c.
Proof. destruct c as [[] [] [] [] [] [] [] []]; intros H; try reflexivity; discriminate. Qed.

Lemma lowerChar_is_2 (c : ascii) :
  Ascii.eqb (JS.lowerChar c) "2" = Ascii.eqb c "2".
Proof. destruct c as [[] [] [] [] [] [] [] []]; reflexivity. Qed.

Lemma lowerChar_is_0 (c : ascii) :
  Ascii.eqb (JS.lowerChar c) "0" = Ascii.eqb c "0".
Proof. destruct c as [[] [] [] [] [] [] [] []]; reflexivity. Qed.

(** The year test written with character comparisons. *)
Lemma yearAt_eqb (c0 c1 d1 d2 : ascii) (rest : string) :
  yearAt (String c0 (String c1 (String d1 (String d2 rest)))) =
  if Ascii.eqb c0 "2" && Ascii.eqb c1 "0" && isDigit d1 && isDigit d2
  then Some (String "2" (String "0" (String d1 (String d2 EmptyString))))
  else None.
Proof.
  destruct (Ascii.eqb_spec c0 "2") as [-> | N0].
  - destruct (Ascii.eqb_spec c1 "0") as [-> | N1]; [reflexivity|].
    unfold yearAt.
    destruct c1 as [[] [] [] [] [] [] [] []]; try reflexivity.
    now contradiction N1.
  - unfold yearAt.
    destruct c0 as [[] [] [] [] [] [] [] []]; try reflexivity.
    now contradiction N0.
Qed.

Lemma yearAt_short (s : string) : String.length s < 4 -> yearAt s = None.
Proof.
  intros L. destruct (yearAt s) as [y|] eqn:E; [|reflexivity].
  apply yearAt_spec in E. destruct E as [Y [post ->]].
  apply IsYear_length in Y. rewrite length_append in L. lia.
Qed.

Lemma length_toLowerCase (s : string) :
  String.length (JS.toLowerCase s) = String.length s.
Proof. induction s; simpl; congruence. Qed.

Lemma yearAt_toLowerCase (s : string) :
  yearAt (JS.toLowerCase s) = yearAt s.
Proof.
  destruct (Nat.lt_ge_cases (String.length s) 4) as [L | L].
  - rewrite !yearAt_short; auto. now rewrite length_toLowerCase.
  - destruct s as [|c0 [|c1 [|d1 [|d2 rest]]]]; simpl in L; try lia.
    cbn [JS.toLowerCase].
    rewrite !yearAt_eqb, lowerChar_is_2, lowerChar_is_0, !lowerChar_digit.
    destruct (Ascii.eqb c0 "2" && Ascii.eqb c1 "0" && isDigit d1 && isDigit d2)
      eqn:C; [|reflexivity].
    apply andb_true_iff in C. destruct C as [C D2].
    apply andb_true_iff in C. destruct C as [_ D1].
    now rewrite (lowerChar_fixes_digit _ D1), (lowerChar_fixes_digit _ D2).
Qed.

(** Lower-casing a file name does not change the year found in it. *)
Lemma yearMatch_toLowerCase (s : string) :
  yearMatch (JS.toLowerCase s) = yearMatch s.
Proof.
  induction s as [|c s IH].
  - reflexivity.
  - change (JS.toLowerCase (String c s))
      with (String (JS.lowerChar c) (JS.toLowerCase s)).
    cbn [yearMatch].
    change (String (JS.lowerChar c) (JS.toLowerCase s))
      with (JS.toLowerCase (String c s)).
    rewrite yearAt_toLowerCase, IH. reflexivity.
Qed.

Lemma generateAutoTags_toLowerCase (filename : string) :
  generateAutoTags (JS.toLowerCase filename) = generateAutoTags filename.
Proof.
  unfold generateAutoTags.
  now rewrite toLowerCase_idem, yearMatch_toLowerCase.
Qed.

(** X1.  The labels of a file do not depend on the case of the letters
    of its name: two names that agree once lower-cased get the same
    labels, in the same order. *)
Theorem generateAutoTags_ignores_case (f1 f2 : string)
    (Hcase : JS.toLowerCase f1 = JS.toLowerCase f2) :
  generateAutoTags f1 = generateAutoTags f2.
Proof.
  rewrite <- (generateAutoTags_toLowerCase f1),
          <- (generateAutoTags_toLowerCase f2).
  now rewrite Hcase.
Qed.

Lemma generateAutoTags_ignores_case_witness :
  JS.toLowerCase "DEMO_Final_2023.MP4" = JS.toLowerCase "demo_final_2023.mp4" /\
  generateAutoTags "DEMO_Final_2023.MP4" = generateAutoTags "demo_final_2023.mp4".
Proof.
  split; [reflexivity|].
  apply generateAutoTags_ignores_case. reflexivity.
Defined.

Lemma Inferred_label_shape (filename l : string) :
  Inferred filename l -> l <> "" /\ l <> "untagged".
Proof.
  intros [(r & I & _ & ->) | (_ & _ & _ & Y & _)].
  - simpl in I.
    repeat (destruct I as [<- | I]; [split; discriminate|]). destruct I.
  - apply IsYear_length in Y. split; intros ->; discriminate.
Qed.

(** X2.  No label that [generateAutoTags] returns is the empty string,
    and "untagged" never stands beside another label: when it is
    returned it is the whole result. *)
Theorem generateAutoTags_untagged_alone (filename l : string)
    (Hin : In l (generateAutoTags filename)) :
  l <> "" /\
  (l = "untagged" -> generateAutoTags filename = ["untagged"]).
Proof.
  destruct (generateAutoTags_cases filename) as [[N E] | [_ E]].
  - rewrite E in *. destruct Hin as [<- | []]. split; [discriminate | auto].
  - rewrite E in Hin. apply In_firedTags in Hin.
    apply Inferred_label_shape in Hin. destruct Hin as [N1 N2].
    split; [exact N1 | intros U; contradiction].
Qed.

Lemma generateAutoTags_untagged_alone_witness :
  In "untagged" (generateAutoTags "holiday.mov") /\
  generateAutoTags "holiday.mov" = ["untagged"].
Proof.
  assert (I : In "untagged" (generateAutoTags "holiday.mov")) by (now left).
  split; [exact I|].
  exact (proj2 (generateAutoTags_untagged_alone "holiday.mov" "untagged" I)
               eq_refl).
Defined.

Lemma ContainsCI_extend (a s b q : string) :
  ContainsCI s q -> ContainsCI (a +++ s +++ b) q.
Proof.
  intros (pre & mid & post & -> & E).
  exists (a +++ pre), mid, (post +++ b). split; [|exact E].
  now rewrite !append_assoc.
Qed.

(** X3.  Text put before or after a file name takes no keyword label
    away: every label of [f] other than "untagged" and the year is a
    label of [a ++ f ++ b] too, and a name with a year label keeps
    having one. *)
Theorem generateAutoTags_keeps_labels_of_part (a f b l : string)
    (Hin : In l (generateAutoTags f)) (Hreal : l <> "untagged") :
  (~ IsYear l -> In l (generateAutoTags (a +++ f +++ b))) /\
  (IsYear l ->
   exists y, IsYear y /\ In y (generateAutoTags (a +++ f +++ b))).
Proof.
  apply In_generateAutoTags in Hin.
  destruct Hin as [I | [_ U]]; [|contradiction].
  split.
  - intros NY. apply In_generateAutoTags. left.
    destruct I as [(r & Ir & (k & Ik & C) & ->) | F].
    + left. exists r. repeat split; auto.
      exists k. split; auto. now apply ContainsCI_extend.
    + destruct F as (_ & _ & _ & Y & _). contradiction.
  - intros Y. apply (Inferred_year _ _ I) in Y.
    destruct Y as (pre & post & -> & Y & _).
    destruct (FirstYear_exists (a +++ (pre +++ l +++ post) +++ b)
                (a +++ pre) l (post +++ b)) as [y F]; auto.
    { now rewrite !append_assoc. }
    exists y. split.
    + now destruct F as (_ & _ & _ & Yy & _).
    + apply In_generateAutoTags. left. now right.
Qed.

Lemma generateAutoTags_keeps_labels_of_part_witness :
  In "meeting" (generateAutoTags "call.mp4") /\
  In "meeting" (generateAutoTags "2019_recall.mp4.bak").
Proof.
  assert (I : In "meeting" (generateAutoTags "call.mp4")) by (now left).
  split; [exact I|].
  apply (proj1 (generateAutoTags_keeps_labels_of_part
                  "2019_re" "call.mp4" ".bak" "meeting" I
                  ltac:(discriminate))).
  intros Y. apply IsYear_length in Y. discriminate.
Defined.







(** ** Search *)

Lemma ContainsCI_refl (s : string) : ContainsCI s s.
Proof. exists "", s, "". split; [|reflexivity]. simpl. now rewrite append_nil_r. Qed.






(** X6.  An entry is found by its own name and by each of its labels:
    with the name, or a label, of an entry of the store as the query,
    that entry is listed. *)
Theorem filteredVideos_finds_own_name_and_labels (st : State) (v : VideoFile)
    (Hin : In v (videos st)) :
  In v (filteredVideos (setSearchQuery (name v) st)) /\
  forall tag, In tag (tags v) ->
              In v (filteredVideos (setSearchQuery tag st)).
Proof.
  unfold filteredVideos, setSearchQuery. simpl. split.
  - apply filter_In. split; auto. apply matchesQuery_spec.
    left. apply ContainsCI_refl.
  - intros tag I. apply filter_In. split; auto. apply matchesQuery_spec.
    right. exists tag. split; auto. apply ContainsCI_refl.
Qed.

Lemma filteredVideos_finds_own_name_and_labels_witness :
  In (entry "v3" "standup.mp4" ["Weekly-Meeting"; "draft"]) sampleVideos /\
  In (entry "v3" "standup.mp4" ["Weekly-Meeting"; "draft"])
     (filteredVideos (setSearchQuery "draft" (library sampleVideos "" None))).
Proof.
  assert (I : In (entry "v3" "standup.mp4" ["Weekly-Meeting"; "draft"])
                 (videos (library sampleVideos "" None))).
  { simpl. auto. }
  split; [exact I|].
  apply (proj2 (filteredVideos_finds_own_name_and_labels _ _ I)).
  simpl. auto.
Defined.

Lemma filter_filter_comm {A} (f g : A -> bool) (l : list A) :
  filter f (filter g l) = filter g (filter f l).
Proof.
  induction l as [|x l IH]; simpl; auto.
  destruct (f x) eqn:F, (g x) eqn:G; simpl; rewrite ?F, ?G, IH; reflexivity.
Qed.

(** X7.  Deleting and searching commute: the list shown after
    [deleteVideo] is the list shown before without the entries that
    have the deleted identifier; the query is kept. *)
Theorem filteredVideos_after_deleteVideo (st : State) (videoId : string) :
  filteredVideos (deleteVideo videoId st) =
  filter (fun v => negb (String.eqb (id v) videoId)) (filteredVideos st) /\
  searchQuery (deleteVideo videoId st) = searchQuery st.
Proof.
  split; [|reflexivity].
  unfold filteredVideos. rewrite videos_deleteVideo.
  change (searchQuery (deleteVideo videoId st)) with (searchQuery st).
  apply filter_filter_comm.
Qed.

(** X8.  A label just added is searchable at once: after
    [addTag videoId tag], every entry of the store with that identifier
    is listed for the query [tag]. *)
Theorem addTag_then_search_finds (st : State) (videoId tag : string)
    (v : VideoFile)
    (Hin : In v (videos (addTag videoId tag st))) (Hid : id v = videoId) :
  In v (filteredVideos (setSearchQuery tag (addTag videoId tag st))).
Proof.
  unfold filteredVideos, setSearchQuery. simpl searchQuery. simpl videos.
  apply filter_In. split; [exact Hin|].
  apply matchesQuery_spec. right. exists tag. split; [|apply ContainsCI_refl].
  rewrite videos_addTag in Hin. apply in_map_iff in Hin.
  destruct Hin as (w & <- & I). apply addOne_has_tag.
  now rewrite addOne_id in Hid.
Qed.

Lemma addTag_then_search_finds_witness :
  In (entry "v2" "holiday.mov" ["untagged"; "beach"])
     (filteredVideos
        (setSearchQuery "beach"
           (addTag "v2" "beach" (library sampleVideos "" None)))).
Proof.
  apply addTag_then_search_finds.
  - simpl. auto.
  - reflexivity.
Defined.

(** ** Suggestion *)

(** X9.  Nothing is suggested exactly when the target already carries
    every label of the library; in particular for the only entry of a
    library, and for the empty library. *)
Theorem suggestTags_empty_iff (st : State) (video : VideoFile) :
  suggestTags st video = [] <->
  forall l, In l (flat_map tags (videos st)) -> In l (tags video).
Proof.
  rewrite suggestTags_candidates. split.
  - intros E l I.
    destruct (in_dec string_dec l (tags video)) as [Y | N]; auto.
    assert (C : In l (candidates st video)) by (apply In_candidates; auto).
    destruct (candidates st video) as [|c cs]; [destruct C|].
    discriminate.
  - intros H. destruct (candidates st video) as [|c cs] eqn:E; auto.
    assert (C : In c (candidates st video)) by (rewrite E; now left).
    apply In_candidates in C. destruct C as [I N]. destruct (N (H c I)).
Qed.

(** X10.  Taking a suggestion adds the label cleanly.  When the
    selected entry [sel] is offered [tag] and the user takes it, the
    selected copy carries [tag] exactly once afterwards, every entry of
    the store with that identifier carries it, and [tag] is not offered
    for the selected copy again. *)
Theorem taking_a_suggestion (st : State) (sel : VideoFile) (tag : string)
    (Hsel : selectedVideo st = Some sel)
    (Hoffer : In tag (suggestTags st sel)) :
  let st' := addTag (id sel) tag st in
  let sel' := withTags sel (tags sel ++ [tag]) in
  selectedVideo st' = Some sel' /\
  count_occ string_dec (tags sel') tag = 1 /\
  (forall v, In v (videos st') -> id v = id sel -> In tag (tags v)) /\
  ~ In tag (suggestTags st' sel').
Proof.
  intros st' sel'.
  assert (N : ~ In tag (tags sel)).
  { rewrite suggestTags_candidates in Hoffer.
    apply (Subseq_In _ _ _ (Subseq_firstn 5 _)) in Hoffer.
    apply In_candidates in Hoffer. tauto. }
  split; [|split; [|split]].
  - subst st' sel'. unfold addTag, selectedIs. simpl.
    rewrite Hsel, String.eqb_refl. reflexivity.
  - subst sel'. simpl. rewrite count_occ_app. simpl.
    rewrite (proj1 (count_occ_not_In string_dec _ _) N).
    destruct (string_dec tag tag); [reflexivity | congruence].
  - intros v I E. subst st'. rewrite videos_addTag in I.
    apply in_map_iff in I. destruct I as (w & <- & I).
    apply addOne_has_tag. now rewrite addOne_id in E.
  - intros I. rewrite suggestTags_candidates in I.
    apply (Subseq_In _ _ _ (Subseq_firstn 5 _)) in I.
    apply In_candidates in I. destruct I as [_ I]. apply I.
    subst sel'. simpl. apply in_or_app. right. now left.
Qed.

Lemma taking_a_suggestion_witness :
  In "draft"
     (suggestTags (library sampleVideos "" (Some (entry "v2" "holiday.mov" ["untagged"])))
                  (entry "v2" "holiday.mov" ["untagged"])) /\
  selectedVideo
    (addTag "v2" "draft"
       (library sampleVideos "" (Some (entry "v2" "holiday.mov" ["untagged"])))) =
  Some (entry "v2" "holiday.mov" ["untagged"; "draft"]).
Proof.
  assert (O : In "draft"
     (suggestTags (library sampleVideos "" (Some (entry "v2" "holiday.mov" ["untagged"])))
                  (entry "v2" "holiday.mov" ["untagged"]))).
  { simpl. auto. }
  split; [exact O|].
  exact (proj1 (taking_a_suggestion
                  (library sampleVideos "" (Some (entry "v2" "holiday.mov" ["untagged"])))
                  (entry "v2" "holiday.mov" ["untagged"]) "draft" eq_refl O)).
Defined.

Lemma suggestTags_empty_iff_witness :
  (forall l,
      In l (flat_map tags
              (videos (library [entry "v1" "one.mp4" ["a"; "b"]] "" None))) ->
      In l (tags (entry "v1" "one.mp4" ["a"; "b"]))) /\
  suggestTags (library [entry "v1" "one.mp4" ["a"; "b"]] "" None)
              (entry "v1" "one.mp4" ["a"; "b"]) = [].
Proof.
  assert (H : forall l,
      In l (flat_map tags
              (videos (library [entry "v1" "one.mp4" ["a"; "b"]] "" None))) ->
      In l (tags (entry "v1" "one.mp4" ["a"; "b"]))).
  { intros l I. simpl in *. tauto. }
  split; [exact H|].
  exact (proj2 (suggestTags_empty_iff _ _) H).
Defined.

(** ** The store *)

Lemma filter_drop_new (tag : string) (ts : list string) :
  ~ In tag ts ->
  filter (fun t => negb (String.eqb t tag)) (ts ++ [tag]) = ts.
Proof.
  intros N. rewrite filter_app. simpl. rewrite String.eqb_refl. simpl.
  rewrite app_nil_r. apply filter_all. intros t I.
  apply negb_true_iff, String.eqb_neq. intros ->. contradiction.
Qed.

(** X11.  Adding a label and removing it again gives the store back:
    when no entry with the identifier carries [tag], [removeTag] after
    [addTag] leaves every entry of the store as it was. *)
Theorem removeTag_undoes_addTag (st : State) (videoId tag : string)
    (Hnew : forall v, In v (videos st) -> id v = videoId ->
                      ~ In tag (tags v)) :
  videos (removeTag videoId tag (addTag videoId tag st)) = videos st.
Proof.
  rewrite videos_removeTag, videos_addTag, map_map.
  apply map_fixed. intros v I.
  destruct (string_dec (id v) videoId) as [E | N].
  - pose proof (Hnew v I E) as Nt.
    assert (A : addOne videoId tag v = withTags v (tags v ++ [tag])).
    { unfold addOne.
      rewrite E, String.eqb_refl, (proj2 (arrIncludes_false _ _) Nt).
      reflexivity. }
    rewrite A. unfold dropOne. cbn [id tags withTags].
    rewrite E, String.eqb_refl, (filter_drop_new tag _ Nt).
    destruct v; reflexivity.
  - rewrite (addOne_other _ _ _ N). now apply dropOne_other.
Qed.

Lemma removeTag_undoes_addTag_witness :
  videos (removeTag "v2" "beach"
            (addTag "v2" "beach" (library sampleVideos "" None))) =
  sampleVideos.
Proof.
  apply removeTag_undoes_addTag.
  intros v I E. simpl in I.
  destruct I as [<- | [<- | [<- | []]]]; simpl in *; try discriminate.
  intros [H | []]. discriminate.
Defined.

Lemma sansTags_addOne (videoId tag : string) (v : VideoFile) :
  sansTags (addOne videoId tag v) = sansTags v.
Proof. unfold addOne. destruct (_ && _); reflexivity. Qed.

Lemma sansTags_dropOne (videoId tag : string) (v : VideoFile) :
  sansTags (dropOne videoId tag v) = sansTags v.
Proof. unfold dropOne. destruct (String.eqb _ _); reflexivity. Qed.

Lemma filter_map_fixed {A} (p : A -> bool) (g : A -> A) (l : list A) :
  (forall x, p (g x) = p x) -> (forall x, p x = true -> g x = x) ->
  filter p (map g l) = filter p l.
Proof.
  intros Hp Hg. induction l as [|x l IH]; simpl; auto.
  rewrite Hp. destruct (p x) eqn:P; [rewrite (Hg x P)|]; now rewrite IH.
Qed.

(** X12.  Label edits touch labels only, and only of the addressed
    entries.  After [addTag] or [removeTag] the store has the same
    entries in the same order with every field but the labels
    unchanged, and the entries with another identifier are exactly as
    before. *)
Theorem tag_edits_touch_only_labels (st : State) (videoId tag : string) :
  map sansTags (videos (addTag videoId tag st)) = map sansTags (videos st) /\
  map sansTags (videos (removeTag videoId tag st)) = map sansTags (videos st) /\
  filter (fun v => negb (String.eqb (id v) videoId))
         (videos (addTag videoId tag st)) =
  filter (fun v => negb (String.eqb (id v) videoId)) (videos st) /\
  filter (fun v => negb (String.eqb (id v) videoId))
         (videos (removeTag videoId tag st)) =
  filter (fun v => negb (String.eqb (id v) videoId)) (videos st).
Proof.
  rewrite videos_addTag, videos_removeTag, !map_map.
  split; [|split; [|split]].
  - apply map_ext. apply sansTags_addOne.
  - apply map_ext. apply sansTags_dropOne.
  - apply filter_map_fixed.
    + intros v. now rewrite addOne_id.
    + intros v P. apply addOne_other.
      apply negb_true_iff in P. now apply String.eqb_neq.
  - apply filter_map_fixed.
    + intros v. now rewrite dropOne_id.
    + intros v P. apply dropOne_other.
      apply negb_true_iff in P. now apply String.eqb_neq.
Qed.

(** X13.  [removeTag] removes every occurrence of the label, in the
    store and in the selected copy: afterwards no entry of the store
    with the identifier carries it, and neither does the selected copy
    when it has the identifier, even when it carried the label
    twice. *)
Theorem removeTag_removes_everywhere (st : State) (videoId tag : string) :
  (forall v, In v (videos (removeTag videoId tag st)) -> id v = videoId ->
             ~ In tag (tags v)) /\
  (forall sel, selectedVideo (removeTag videoId tag st) = Some sel ->
               id sel = videoId -> ~ In tag (tags sel)).
Proof.
  assert (F : forall ts, ~ In tag (filter (fun t => negb (String.eqb t tag)) ts)).
  { intros ts I. apply filter_In in I. destruct I as [_ I].
    rewrite String.eqb_refl in I. discriminate. }
  split.
  - intros v I E. rewrite videos_removeTag in I. apply in_map_iff in I.
    destruct I as (w & <- & I). rewrite dropOne_id in E.
    unfold dropOne. rewrite E, String.eqb_refl. simpl. apply F.
  - intros sel S E. unfold removeTag, selectedIs in S. simpl in S.
    destruct (selectedVideo st) as [prev|] eqn:P; [|discriminate].
    destruct (String.eqb (id prev) videoId) eqn:B.
    + injection S as <-. simpl. apply F.
    + injection S as <-. apply String.eqb_neq in B. contradiction.
Qed.

Lemma removeTag_removes_everywhere_witness :
  selectedVideo
    (removeTag "v1" "meeting"
       (library sampleVideos ""
          (Some (entry "v1" "MEETING_notes.mp4" ["meeting"; "x"; "meeting"])))) =
  Some (entry "v1" "MEETING_notes.mp4" ["x"]) /\
  ~ In "meeting" (tags (entry "v1" "MEETING_notes.mp4" ["x"])).
Proof.
  split; [reflexivity|].
  apply (proj2 (removeTag_removes_everywhere
                  (library sampleVideos ""
                     (Some (entry "v1" "MEETING_notes.mp4"
                              ["meeting"; "x"; "meeting"])))
                  "v1" "meeting")
               (entry "v1" "MEETING_notes.mp4" ["x"]));
    reflexivity.
Defined.

(** *** Deleting *)

(** X14.  After [deleteVideo] the store holds, in their order, exactly
    the entries with another identifier, and the selection never points
    at the deleted identifier: a selected entry with that identifier is
    deselected, any other selection is kept. *)
Theorem deleteVideo_store_and_selection (st : State) (videoId : string) :
  (forall v, In v (videos (deleteVideo videoId st)) <->
             In v (videos st) /\ id v <> videoId) /\
  Subseq (videos (deleteVideo videoId st)) (videos st) /\
  (forall sel, selectedVideo (deleteVideo videoId st) = Some sel ->
               id sel <> videoId /\ selectedVideo st = Some sel) /\
  (forall sel, selectedVideo st = Some sel -> id sel <> videoId ->
               selectedVideo (deleteVideo videoId st) = Some sel).
Proof.
  split; [|split; [|split]].
  - intros v. rewrite videos_deleteVideo, filter_In, negb_true_iff.
    now rewrite String.eqb_neq.
  - rewrite videos_deleteVideo. apply Subseq_filter.
  - intros sel S. unfold deleteVideo, selectedIs in S. simpl in S.
    destruct (selectedVideo st) as [prev|]; [|discriminate].
    destruct (String.eqb (id prev) videoId) eqn:B; [discriminate|].
    injection S as <-. apply String.eqb_neq in B. auto.
  - intros sel S N. unfold deleteVideo, selectedIs. simpl. rewrite S.
    apply String.eqb_neq in N. now rewrite N.
Qed.

Lemma deleteVideo_store_and_selection_witness :
  selectedVideo
    (deleteVideo "v2"
       (library sampleVideos "" (Some (entry "v2" "holiday.mov" ["untagged"])))) =
  None /\
  selectedVideo
    (deleteVideo "v1"
       (library sampleVideos "" (Some (entry "v2" "holiday.mov" ["untagged"])))) =
  Some (entry "v2" "holiday.mov" ["untagged"]).
Proof.
  split; [reflexivity|].
  apply (proj2 (proj2 (proj2 (deleteVideo_store_and_selection
           (library sampleVideos "" (Some (entry "v2" "holiday.mov" ["untagged"])))
           "v1"))));
    [reflexivity | discriminate].
Defined.

Lemma NoDup_map_inj {A B} (f : A -> B) (l : list A) (x y : A) :
  NoDup (map f l) -> In x l -> In y l -> f x = f y -> x = y.
Proof.
  induction l as [|a l IH]; simpl; intros N Ix Iy E; [destruct Ix|].
  inversion N as [|? ? Na Nl]; subst.
  destruct Ix as [-> | Ix], Iy as [-> | Iy]; auto.
  - exfalso. apply Na. rewrite E. now apply in_map.
  - exfalso. apply Na. rewrite <- E. now apply in_map.
Qed.

(** X15.  Deleting an entry releases its object URL and no other.  In
    a store whose entries have distinct identifiers,
    [deleteVideo (id v)] for an entry [v] of the store hands exactly
    [url v] to [URL.revokeObjectURL]; when the URLs of the store are
    distinct too, no entry that stays uses the released URL. *)
Theorem deleteVideo_releases_its_url (st : State) (v : VideoFile)
    (Hin : In v (videos st))
    (Hids : NoDup (map id (videos st))) :
  revoked (deleteVideo (id v) st) = revoked st ++ [url v] /\
  (NoDup (map url (videos st)) ->
   forall w, In w (videos (deleteVideo (id v) st)) -> url w <> url v).
Proof.
  split.
  - unfold deleteVideo. simpl.
    destruct (find (fun u => String.eqb (id u) (id v)) (videos st))
      as [u|] eqn:F.
    + apply find_some in F. destruct F as [Iu E]. apply String.eqb_eq in E.
      now rewrite (NoDup_map_inj id _ u v Hids Iu Hin E).
    + exfalso. apply (find_none _ _ F) in Hin.
      now rewrite String.eqb_refl in Hin.
  - intros Hurls w I E. rewrite videos_deleteVideo in I.
    apply filter_In in I. destruct I as [Iw N].
    apply negb_true_iff, String.eqb_neq in N. apply N.
    now rewrite (NoDup_map_inj url _ w v Hurls Iw Hin E).
Qed.

Lemma deleteVideo_releases_its_url_witness :
  NoDup (map id sampleVideos) /\
  revoked (deleteVideo "v2" (library sampleVideos "" None)) = ["blob:v2"].
Proof.
  assert (N : NoDup (map id (videos (library sampleVideos "" None)))).
  { simpl. repeat constructor; simpl; intuition discriminate. }
  split; [exact N|].
  exact (proj1 (deleteVideo_releases_its_url
                  (library sampleVideos "" None)
                  (entry "v2" "holiday.mov" ["untagged"])
                  (or_intror (or_introl eq_refl)) N)).
Defined.

(** X16.  Deleting twice is deleting once, and nothing is released
    twice: a second [deleteVideo] of the same identifier changes
    neither the store nor the released URLs.  Deletions of two
    identifiers leave the same store in either order. *)
Theorem deleteVideo_twice_and_swapped (st : State) (a b : string) :
  videos (deleteVideo a (deleteVideo a st)) = videos (deleteVideo a st) /\
  revoked (deleteVideo a (deleteVideo a st)) = revoked (deleteVideo a st) /\
  videos (deleteVideo a (deleteVideo b st)) =
  videos (deleteVideo b (deleteVideo a st)).
Proof.
  destruct (deleteVideo_absent a (deleteVideo a st) (deleteVideo_removes a st))
    as [Ev Er].
  split; [exact Ev|]. split; [exact Er|].
  rewrite !videos_deleteVideo. apply filter_filter_comm.
Qed.

(** ** Import *)

Lemma settledText_ready (es : list Duration.MediaEvent) :
  es <> [] -> Duration.getVideoDuration es = Duration.Fulfilled (settledText es).
Proof.
  intros N. unfold settledText. destruct es as [|e es]; [congruence|].
  rewrite DurationFacts.getVideoDuration_first. destruct e; reflexivity.
Qed.

(** The loop over files whose video elements all report. *)
Lemma uploadLoop_ready (fs : list (FileInput * list Duration.MediaEvent))
    (st : State) :
  (forall fe, In fe fs -> snd fe <> []) ->
  snd (uploadLoop fs st) = true /\
  videos (fst (uploadLoop fs st)) = videos st ++ map importedEntry fs /\
  selectedVideo (fst (uploadLoop fs st)) = selectedVideo st /\
  searchQuery (fst (uploadLoop fs st)) = searchQuery st /\
  revoked (fst (uploadLoop fs st)) = revoked st /\
  isUploading (fst (uploadLoop fs st)) = isUploading st /\
  agentMessage (fst (uploadLoop fs st)) = agentMessage st.
Proof.
  revert st. induction fs as [|[f es] fs IH]; intros st R.
  - simpl. rewrite app_nil_r. repeat split.
  - cbn [uploadLoop].
    rewrite (settledText_ready es (R (f, es) (or_introl eq_refl))).
    destruct (IH (resumeUpload f (settledText es) st))
      as (Hs & Hv & Hsel & Hq & Hr & Hu & Hm).
    { intros fe I. apply R. now right. }
    rewrite Hs, Hv, Hsel, Hq, Hr, Hu, Hm. simpl.
    rewrite <- app_assoc. repeat split.
Qed.

(** The loop up to a file whose video element never reports. *)
Lemma uploadLoop_stalls
    (before after : list (FileInput * list Duration.MediaEvent))
    (f : FileInput) (st : State) :
  (forall fe, In fe before -> snd fe <> []) ->
  snd (uploadLoop (before ++ (f, []) :: after) st) = false /\
  videos (fst (uploadLoop (before ++ (f, []) :: after) st)) =
    videos st ++ map importedEntry before /\
  isUploading (fst (uploadLoop (before ++ (f, []) :: after) st)) =
    isUploading st /\
  agentMessage (fst (uploadLoop (before ++ (f, []) :: after) st)) =
    agentMessage st.
Proof.
  revert st. induction before as [|[g es] before IH]; intros st R.
  - simpl. rewrite app_nil_r. repeat split.
  - cbn [app uploadLoop].
    rewrite (settledText_ready es (R (g, es) (or_introl eq_refl))).
    destruct (IH (resumeUpload g (settledText es) st)) as (Hs & Hv & Hu & Hm).
    { intros fe I. apply R. now right. }
    rewrite Hs, Hv, Hu, Hm. simpl. rewrite <- app_assoc. repeat split.
Qed.

(** X17.  An import whose files all load or fail to load appends one
    entry per file, in the order of the selection, behind the entries
    the store had; the selection is kept, the upload flag is back to
    false and the message counts the files.  A file that fails to load
    is imported all the same. *)
Theorem handleFileUpload_appends_in_order
    (fs : list (FileInput * list Duration.MediaEvent)) (st : State)
    (Hready : forall fe, In fe fs -> snd fe <> []) :
  let st' := handleFileUpload (Some fs) st in
  videos st' = videos st ++ map importedEntry fs /\
  List.length (videos st') = List.length (videos st) + List.length fs /\
  selectedVideo st' = selectedVideo st /\
  isUploading st' = false /\
  agentMessage st' = addedMessage (List.length fs).
Proof.
  cbv zeta. unfold handleFileUpload.
  destruct (uploadLoop_ready fs
              (setUploading true " Agent: Processing your videos..." st)
              Hready) as (Hs & Hv & Hsel & _).
  destruct (uploadLoop fs _) as [st2 finished]. simpl in *. subst finished.
  simpl. rewrite Hv, Hsel, length_app, length_map. repeat split.
Qed.

Lemma handleFileUpload_appends_in_order_witness :
  map (fun v => (name v, duration v, tags v))
      (videos (handleFileUpload
                 (Some [ (pendingFile, [Duration.LoadedMetadata (1259 # 10)]);
                         (pendingFile, [Duration.LoadError]) ])
                 initialState)) =
  [ ("clip.mp4", Some "2:05", ["untagged"]);
    ("clip.mp4", Some "Unknown", ["untagged"]) ].
Proof.
  rewrite (proj1 (handleFileUpload_appends_in_order
                    [ (pendingFile, [Duration.LoadedMetadata (1259 # 10)]);
                      (pendingFile, [Duration.LoadError]) ]
                    initialState
                    ltac:(intros fe [<- | [<- | []]]; discriminate))).
  reflexivity.
Defined.

(** X18.  The loop awaits one file at a time and has no time limit:
    when the video element of a file reports nothing, the files before
    it are in the store, that file and the files after it are not, and
    the page stays in its uploading state with the processing
    message. *)
Theorem handleFileUpload_stalls_behind_silent_file
    (before after : list (FileInput * list Duration.MediaEvent))
    (f : FileInput) (st : State)
    (Hready : forall fe, In fe before -> snd fe <> []) :
  let st' := handleFileUpload (Some (before ++ (f, []) :: after)) st in
  videos st' = videos st ++ map importedEntry before /\
  isUploading st' = true /\
  agentMessage st' = " Agent: Processing your videos...".
Proof.
  cbv zeta. unfold handleFileUpload.
  destruct (uploadLoop_stalls before after f
              (setUploading true " Agent: Processing your videos..." st)
              Hready) as (Hs & Hv & Hu & Hm).
  destruct (uploadLoop _ _) as [st2 finished]. simpl in *. subst finished.
  auto.
Qed.

Lemma handleFileUpload_stalls_behind_silent_file_witness :
  videos (handleFileUpload
            (Some ([(pendingFile, [Duration.LoadError])] ++
                   (pendingFile, []) ::
                   [(pendingFile, [Duration.LoadedMetadata 5])]))
            initialState) =
  [withDuration (newVideo pendingFile) "Unknown"].
Proof.
  rewrite (proj1 (handleFileUpload_stalls_behind_silent_file
                    [(pendingFile, [Duration.LoadError])]
                    [(pendingFile, [Duration.LoadedMetadata 5])]
                    pendingFile initialState
                    ltac:(intros fe [<- | []]; discriminate))).
  reflexivity.
Defined.

(** ** The duration text *)

Lemma no_colon_in_Unknown (a b : string) : a +++ String ":" b <> "Unknown".
Proof.
  intros H.
  do 7 (destruct a as [|? a]; simpl in H; [discriminate|];
        injection H as _ H).
  destruct a; discriminate.
Qed.


Lemma format_has_colon (d : Q) :
  exists a b, Duration.format d = a +++ String ":" b.
Proof.
  exists (Duration.toString (Qfloor (d / 60))),
         (JS.padStart0 2 (Duration.toString (Qfloor (Duration.rem d 60)))).
  reflexivity.
Qed.

(** X19.  "Unknown" tells a failure from a success without doubt: the
    text of a loaded duration is never "Unknown" and never empty, so
    the promise is fulfilled with "Unknown" exactly when the first
    thing the video element reports is an error. *)
Theorem unknown_iff_load_error
    (e : Duration.MediaEvent) (es : list Duration.MediaEvent) :
  (Duration.getVideoDuration (e :: es) = Duration.Fulfilled "Unknown" <->
   e = Duration.LoadError) /\
  Duration.getVideoDuration (e :: es) <> Duration.Fulfilled "".
Proof.
  rewrite DurationFacts.getVideoDuration_first.
  destruct e as [d|]; simpl.
  - destruct (format_has_colon d) as (a & b & E). rewrite E. split.
    + split; [|discriminate]. intros [= H].
      destruct (no_colon_in_Unknown _ _ H).
    + intros [= H]. destruct a; discriminate.
  - split; [tauto | discriminate].
Qed.

(** ** Sessions: what holds whatever the user does *)

Lemma ui_cases (st : State) (e : UIEvent) :
  ui st e = st \/
  (exists q, ui st e = setSearchQuery q st) \/
  (exists a, UIGuard st a /\ ui st e = step st a /\
             match a with
             | Import f _ => exists evs, e = FileReady f evs
             | _ => True
             end).
Proof.
  destruct e as [i | i | j | value | j | q | f es]; simpl.
  - destruct (nth_error (filteredVideos st) i) as [v|] eqn:N; auto.
    right. right. exists (Select v). split; [|now split].
    simpl. eapply nth_error_In; eauto.
  - destruct (nth_error (filteredVideos st) i) as [v|] eqn:N; auto.
    right. right. exists (Delete (id v)). split; [|now split].
    simpl. exists v. split; auto. eapply nth_error_In; eauto.
  - destruct (selectedVideo st) as [sel|] eqn:S; auto.
    destruct (nth_error (tags sel) j) as [t|] eqn:N; auto.
    right. right. exists (RemoveTag (id sel) t). split; [|now split].
    simpl. exists sel. repeat split; auto. eapply nth_error_In; eauto.
  - destruct (selectedVideo st) as [sel|] eqn:S; auto.
    destruct (String.eqb_spec value "") as [-> | N]; auto.
    right. right. exists (AddTag (id sel) value). split; [|now split].
    simpl. exists sel. auto.
  - destruct (selectedVideo st) as [sel|] eqn:S; auto.
    destruct (nth_error (suggestTags st sel) j) as [t|] eqn:N; auto.
    right. right. exists (AddTag (id sel) t). split; [|now split].
    simpl. exists sel. repeat split; auto. right.
    eapply nth_error_In; eauto.
  - right. left. eauto.
  - destruct es as [|e es]; [now left|].
    rewrite DurationFacts.getVideoDuration_first.
    right. right. destruct e as [d|]; simpl.
    + exists (Import f (Duration.format d)).
      split; [|split; [reflexivity | eauto]].
      simpl. right. eauto.
    + exists (Import f "Unknown").
      split; [|split; [reflexivity | eauto]]. simpl. now left.
Qed.

(** What holds on the empty page and is kept by every handler holds
    after every session. *)
Lemma session_invariant (P : State -> Prop) :
  P initialState ->
  (forall st q, P st -> P (setSearchQuery q st)) ->
  (forall st a, P st -> UIGuard st a -> P (step st a)) ->
  forall es, P (session es).
Proof.
  intros P0 Pq Pa es. unfold session.
  generalize initialState P0. induction es as [|e es IH]; intros st H; auto.
  simpl. apply IH.
  destruct (ui_cases st e) as [-> | [[q ->] | (a & G & -> & _)]]; auto.
Qed.

Lemma In_filteredVideos_videos (st : State) (v : VideoFile) :
  In v (filteredVideos st) -> In v (videos st).
Proof. unfold filteredVideos. intros I. now apply filter_In in I. Qed.

Lemma In_tags_addOne (videoId tag : string) (u : VideoFile) (x : string) :
  id u = videoId ->
  (In x (tags (addOne videoId tag u)) <-> In x (tags u) \/ x = tag).
Proof.
  intros E. unfold addOne. rewrite E, String.eqb_refl. simpl.
  destruct (JS.arrIncludes (tags u) tag) eqn:A; simpl.
  - apply arrIncludes_spec in A. intuition (subst; auto).
  - rewrite in_app_iff. simpl. intuition.
Qed.

Lemma In_tags_dropOne (videoId tag : string) (u : VideoFile) (x : string) :
  id u = videoId ->
  (In x (tags (dropOne videoId tag u)) <-> In x (tags u) /\ x <> tag).
Proof.
  intros E. unfold dropOne. rewrite E, String.eqb_refl. simpl.
  rewrite filter_In, negb_true_iff, String.eqb_neq. reflexivity.
Qed.

Lemma sansTags_id (u v : VideoFile) : sansTags u = sansTags v -> id u = id v.
Proof. intros E. exact (f_equal id E). Qed.

Lemma MirrorOK_step (st : State) (a : Action) :
  MirrorOK st -> UIGuard st a -> MirrorOK (step st a).
Proof.
  intros M G. destruct a as [f d | i | i t | i t | v]; simpl in G.
  - intros sel S. destruct (M sel S) as (u & I & E & T).
    exists u. repeat split; try apply T; auto.
    simpl. apply in_or_app. now left.
  - intros sel S. simpl in S.
    unfold deleteVideo, selectedIs in S. simpl in S.
    destruct (selectedVideo st) as [prev|] eqn:P; [|discriminate].
    destruct (String.eqb (id prev) i) eqn:B; [discriminate|].
    injection S as <-. destruct (M prev P) as (u & I & E & T).
    exists u. repeat split; try apply T; auto.
    simpl. apply filter_In. split; auto.
    rewrite (sansTags_id _ _ E), B. reflexivity.
  - destruct G as (sel & S & -> & _). intros sel' S'. simpl in S'.
    unfold addTag, selectedIs in S'. simpl in S'.
    rewrite S, String.eqb_refl in S'. injection S' as <-.
    destruct (M sel S) as (u & I & E & T).
    exists (addOne (id sel) t u). split; [|split].
    + cbn [step]. rewrite videos_addTag. now apply in_map.
    + now rewrite sansTags_addOne.
    + intros x. rewrite (In_tags_addOne _ _ _ _ (sansTags_id _ _ E)).
      simpl. rewrite in_app_iff, T. simpl. intuition.
  - destruct G as (sel & S & -> & _). intros sel' S'. simpl in S'.
    unfold removeTag, selectedIs in S'. simpl in S'.
    rewrite S, String.eqb_refl in S'. injection S' as <-.
    destruct (M sel S) as (u & I & E & T).
    exists (dropOne (id sel) t u). split; [|split].
    + cbn [step]. rewrite videos_removeTag. now apply in_map.
    + now rewrite sansTags_dropOne.
    + intros x. rewrite (In_tags_dropOne _ _ _ _ (sansTags_id _ _ E)).
      simpl. rewrite filter_In, negb_true_iff, String.eqb_neq, T.
      reflexivity.
  - intros sel S. simpl in S. injection S as <-.
    exists v. repeat split; auto. now apply In_filteredVideos_videos.
Qed.

(** X20.  Whatever the user does, the details panel shows an entry of
    the store: after every session, a selected copy agrees with an
    entry of the store in identifier, name, size, duration, date, URL
    and type, and carries the same labels as that entry, be it in
    another order or with repeats. *)
Theorem session_selection_mirrors_store (es : list UIEvent) :
  MirrorOK (session es).
Proof.
  apply session_invariant.
  - intros sel S. discriminate.
  - intros st q M. exact M.
  - apply MirrorOK_step.
Qed.

Lemma session_selection_mirrors_store_witness :
  selectedVideo
    (session [ FileReady pendingFile [Duration.LoadedMetadata 5];
               ClickVideo 0; EnterTag "trip"; EnterTag "trip" ]) =
  Some (withTags (withDuration (newVideo pendingFile) "0:05")
                 ["untagged"; "trip"; "trip"]) /\
  exists u,
    In u (videos
            (session [ FileReady pendingFile [Duration.LoadedMetadata 5];
                       ClickVideo 0; EnterTag "trip"; EnterTag "trip" ])) /\
    sansTags u =
    sansTags (withTags (withDuration (newVideo pendingFile) "0:05")
                       ["untagged"; "trip"; "trip"]) /\
    forall t, In t ["untagged"; "trip"; "trip"] <-> In t (tags u).
Proof.
  split; [reflexivity|].
  exact (session_selection_mirrors_store
           [ FileReady pendingFile [Duration.LoadedMetadata 5];
             ClickVideo 0; EnterTag "trip"; EnterTag "trip" ]
           _ eq_refl).
Defined.

Lemma generateAutoTags_no_empty_label (filename : string) :
  ~ In "" (generateAutoTags filename).
Proof.
  intros I. apply In_generateAutoTags in I.
  destruct I as [I | [_ I]]; [|discriminate].
  apply Inferred_label_shape in I. now destruct I.
Qed.

Lemma LabelsClean_step (st : State) (a : Action) :
  LabelsClean st -> UIGuard st a -> LabelsClean (step st a).
Proof.
  intros [Cv Cs] G.
  assert (D : LabelsDistinct (step st a)).
  { apply LabelsDistinct_step. intros v I. now apply Cv. }
  split.
  - intros v I. split; [now apply D|].
    destruct a as [f d | i | i t | i t | w]; simpl in G, I.
    + apply in_app_or in I. destruct I as [I | [<- | []]]; [now apply Cv|].
      simpl. apply generateAutoTags_no_empty_label.
    + apply filter_In in I. apply Cv, I.
    + destruct G as (sel & S & -> & Ht).
      apply in_map_iff in I. destruct I as (u & <- & I).
      change (~ In "" (tags (addOne (id sel) t u))).
      unfold addOne. destruct (_ && _); [|now apply Cv].
      simpl. intros H. apply in_app_or in H.
      destruct H as [H | [E | []]]; [now apply (Cv u I)|].
      destruct Ht as [Ht | Ht]; [exact (Ht E)|]. subst t.
      rewrite suggestTags_candidates in Ht.
      apply (Subseq_In _ _ _ (Subseq_firstn 5 _)) in Ht.
      apply In_candidates in Ht. destruct Ht as [Ht _].
      apply in_flat_map in Ht. destruct Ht as (w & Iw & Hw).
      exact (proj2 (Cv w Iw) Hw).
    + apply in_map_iff in I. destruct I as (u & <- & I).
      change (~ In "" (tags (dropOne i t u))).
      intros H. apply dropOne_tags in H. exact (proj2 (Cv u I) H).
    + now apply Cv.
  - intros sel S.
    destruct a as [f d | i | i t | i t | w]; simpl in G, S.
    + now apply Cs.
    + unfold selectedIs in S.
      destruct (selectedVideo st) as [prev|] eqn:P; [|discriminate].
      destruct (String.eqb (id prev) i); [discriminate|].
      injection S as <-. now apply Cs.
    + destruct G as (prev & P & -> & Ht). unfold selectedIs in S.
      rewrite P, String.eqb_refl in S. injection S as <-. simpl.
      intros H. apply in_app_or in H.
      destruct H as [H | [E | []]]; [now apply (Cs prev P)|].
      destruct Ht as [Ht | Ht]; [exact (Ht E)|]. subst t.
      rewrite suggestTags_candidates in Ht.
      apply (Subseq_In _ _ _ (Subseq_firstn 5 _)) in Ht.
      apply In_candidates in Ht. destruct Ht as [Ht _].
      apply in_flat_map in Ht. destruct Ht as (w & Iw & Hw).
      exact (proj2 (Cv w Iw) Hw).
    + destruct G as (prev & P & -> & _). unfold selectedIs in S.
      rewrite P, String.eqb_refl in S. injection S as <-. simpl.
      intros H. apply filter_In in H. now apply (Cs prev P).
    + injection S as <-. apply In_filteredVideos_videos in G.
      now apply Cv.
Qed.

(** X21.  Whatever the user does, labels stay clean: after every
    session no entry of the store carries a label twice, and neither
    the store nor the selected copy carries the empty label. *)
Theorem session_labels_clean (es : list UIEvent) :
  LabelsClean (session es).
Proof.
  apply session_invariant.
  - split; [intros v [] | intros sel S; discriminate].
  - intros st q C. exact C.
  - apply LabelsClean_step.
Qed.

Lemma session_labels_clean_witness :
  In (withTags (withDuration (newVideo pendingFile) "Unknown")
               ["untagged"; "trip"])
     (videos (session [ FileReady pendingFile [Duration.LoadError];
                        ClickVideo 0; EnterTag ""; EnterTag "trip";
                        EnterTag "trip" ])) /\
  NoDup ["untagged"; "trip"] /\ ~ In "" ["untagged"; "trip"].
Proof.
  assert (I : In (withTags (withDuration (newVideo pendingFile) "Unknown")
                           ["untagged"; "trip"])
                 (videos (session [ FileReady pendingFile [Duration.LoadError];
                                    ClickVideo 0; EnterTag ""; EnterTag "trip";
                                    EnterTag "trip" ]))).
  { left. reflexivity. }
  split; [exact I|].
  exact (proj1 (session_labels_clean _) _ I).
Defined.





(** *** No URL is used after its release *)

Lemma filter_unique_id (l : list VideoFile) (v : VideoFile) :
  NoDup (map id l) -> In v l ->
  exists l1 l2,
    l = l1 ++ v :: l2 /\
    filter (fun u => negb (String.eqb (id u) (id v))) l = l1 ++ l2.
Proof.
  intros N I. destruct (in_split _ _ I) as (l1 & l2 & ->).
  exists l1, l2. split; [reflexivity|].
  assert (Other : forall u, In u (l1 ++ l2) ->
                    negb (String.eqb (id u) (id v)) = true).
  { intros u Iu. apply negb_true_iff, String.eqb_neq. intros E.
    rewrite map_app in N. simpl in N. apply NoDup_remove_2 in N.
    apply N. rewrite <- map_app, <- E. now apply in_map. }
  rewrite filter_app. simpl. rewrite String.eqb_refl. simpl.
  rewrite !filter_all; auto; intros u Iu; apply Other, in_or_app; auto.
Qed.

Lemma find_unique_id (l : list VideoFile) (v : VideoFile) :
  NoDup (map id l) -> In v l ->
  find (fun u => String.eqb (id u) (id v)) l = Some v.
Proof.
  intros N I.
  destruct (find (fun u => String.eqb (id u) (id v)) l) as [u|] eqn:F.
  - apply find_some in F. destruct F as [Iu E]. apply String.eqb_eq in E.
    now rewrite (NoDup_map_inj id _ u v N Iu I E).
  - apply (find_none _ _ F) in I. now rewrite String.eqb_refl in I.
Qed.

Lemma map_url_addOne (videoId tag : string) (l : list VideoFile) :
  map url (map (addOne videoId tag) l) = map url l /\
  map id (map (addOne videoId tag) l) = map id l.
Proof.
  rewrite !map_map. split; apply map_ext; intros v; unfold addOne;
    destruct (_ && _); reflexivity.
Qed.

Lemma map_url_dropOne (videoId tag : string) (l : list VideoFile) :
  map url (map (dropOne videoId tag) l) = map url l /\
  map id (map (dropOne videoId tag) l) = map id l.
Proof.
  rewrite !map_map. split; apply map_ext; intros v; unfold dropOne;
    destruct (String.eqb _ _); reflexivity.
Qed.

Lemma Tracked_weaken (st : State) (ids urls ids' urls' : list string) :
  Tracked st ids urls -> incl ids ids' -> incl urls urls' ->
  Tracked st ids' urls'.
Proof.
  intros (Ni & Ii & Nu & Iu) Hi Hu. repeat split; auto.
Qed.

Lemma Tracked_import (st : State) (f : FileInput) (d : string)
    (ids urls : list string) :
  Tracked st ids urls ->
  ~ In (randomId f) ids -> ~ In (objectURL f) urls ->
  Tracked (resumeUpload f d st) (ids ++ [randomId f]) (urls ++ [objectURL f]).
Proof.
  intros (Ni & Ii & Nu & Iu) Fi Fu.
  unfold Tracked. cbn [resumeUpload videos revoked].
  rewrite !map_app. cbn [map id url withDuration newVideo].
  split; [|split; [|split]].
  - apply NoDup_app; auto.
    + repeat constructor. intros [].
    + intros x Ix [E | []]. subst. auto.
  - intros x Ix. apply in_app_or in Ix. apply in_or_app.
    destruct Ix as [Ix | Ix]; auto.
  - rewrite <- app_assoc.
    apply (Permutation_NoDup
             (l := objectURL f :: map url (videos st) ++ revoked st)).
    + apply Permutation_middle.
    + constructor; auto.
  - intros x Ix. apply in_or_app.
    rewrite <- app_assoc in Ix. apply in_app_or in Ix.
    destruct Ix as [Ix | [E | Ix]].
    + left. apply Iu. apply in_or_app. now left.
    + right. now left.
    + left. apply Iu. apply in_or_app. now right.
Qed.

Lemma Tracked_delete (st : State) (v : VideoFile) (ids urls : list string) :
  Tracked st ids urls -> In v (videos st) ->
  Tracked (deleteVideo (id v) st) ids urls.
Proof.
  intros (Ni & Ii & Nu & Iu) Iv.
  destruct (filter_unique_id _ _ Ni Iv) as (l1 & l2 & El & Ef).
  assert (P : Permutation (map url (videos st) ++ revoked st)
                (map url (l1 ++ l2) ++ revoked st ++ [url v])).
  { rewrite El, !map_app. simpl. rewrite <- !app_assoc. simpl.
    apply Permutation_app_head.
    rewrite app_assoc. apply Permutation_cons_append. }
  unfold Tracked, deleteVideo. cbn [videos revoked].
  rewrite (find_unique_id _ _ Ni Iv), Ef.
  split; [|split; [|split]].
  - rewrite El, map_app in Ni. simpl in Ni.
    apply NoDup_remove_1 in Ni. now rewrite map_app.
  - intros x Ix. apply Ii. rewrite El, map_app. simpl.
    rewrite map_app in Ix. apply in_app_or in Ix. apply in_or_app.
    destruct Ix; [left | right; right]; auto.
  - exact (Permutation_NoDup P Nu).
  - intros x Ix. apply Iu. apply Permutation_sym in P.
    exact (Permutation_in _ P Ix).
Qed.

Lemma Tracked_ui (st : State) (e : UIEvent) (ids urls : list string) :
  Tracked st ids urls ->
  (forall x, In x (eventIds e) -> ~ In x ids) ->
  (forall x, In x (eventUrls e) -> ~ In x urls) ->
  Tracked (ui st e) (ids ++ eventIds e) (urls ++ eventUrls e).
Proof.
  intros T Fi Fu.
  assert (W : forall st', Tracked st' ids urls ->
                Tracked st' (ids ++ eventIds e) (urls ++ eventUrls e)).
  { intros st' T'. apply (Tracked_weaken _ _ _ _ _ T'); apply incl_appl;
      apply incl_refl. }
  destruct (ui_cases st e) as [-> | [[q ->] | (a & G & -> & Src)]].
  - now apply W.
  - apply W. exact T.
  - destruct a as [f d | i | i t | i t | w]; simpl in G.
    + destruct Src as [evs ->]. simpl in *.
      apply Tracked_import; auto.
    + apply W. destruct G as (v & Iv & <-).
      apply Tracked_delete; auto. now apply In_filteredVideos_videos.
    + apply W. destruct T as (Ni & Ii & Nu & Iu).
      unfold Tracked. cbn [step]. rewrite videos_addTag.
      destruct (map_url_addOne i t (videos st)) as [-> ->].
      repeat split; auto.
    + apply W. destruct T as (Ni & Ii & Nu & Iu).
      unfold Tracked. cbn [step]. rewrite videos_removeTag.
      destruct (map_url_dropOne i t (videos st)) as [-> ->].
      repeat split; auto.
    + apply W. exact T.
Qed.

Lemma NoDup_app_disjoint {A} (l1 l2 : list A) (x : A) :
  NoDup (l1 ++ l2) -> In x l1 -> ~ In x l2.
Proof.
  induction l1 as [|a l1 IH]; simpl; intros N I; [destruct I|].
  inversion N as [|? ? Na Nl]; subst. destruct I as [-> | I]; auto.
  intros I2. apply Na. apply in_or_app. now right.
Qed.

Lemma Tracked_run (es : list UIEvent) (st : State) (ids urls : list string) :
  Tracked st ids urls ->
  NoDup (ids ++ importedIds es) -> NoDup (urls ++ importedUrls es) ->
  Tracked (fold_left ui es st)
          (ids ++ importedIds es) (urls ++ importedUrls es).
Proof.
  revert st ids urls. induction es as [|e es IH]; intros st ids urls T Hi Hu.
  - simpl. now rewrite !app_nil_r.
  - unfold importedIds, importedUrls in *. cbn [flat_map fold_left] in *.
    rewrite app_assoc in Hi, Hu. rewrite !app_assoc.
    apply IH; auto.
    apply Tracked_ui; auto.
    + intros x Ix Iids. apply NoDup_app_remove_r in Hi.
      exact (NoDup_app_disjoint _ _ x Hi Iids Ix).
    + intros x Ix Iurls. apply NoDup_app_remove_r in Hu.
      exact (NoDup_app_disjoint _ _ x Hu Iurls Ix).
Qed.

(** X23.  No URL is used after its release.  In a session whose
    imports draw distinct identifiers and distinct object URLs, the
    entries of the store always have distinct identifiers, no URL is
    released twice, and neither an entry of the store nor the selected
    copy in the player holds a URL that was released. *)
Theorem session_no_released_url_in_use (es : list UIEvent)
    (Hids : NoDup (importedIds es)) (Hurls : NoDup (importedUrls es)) :
  NoDup (map id (videos (session es))) /\
  NoDup (revoked (session es)) /\
  (forall v, In v (videos (session es)) ->
             ~ In (url v) (revoked (session es))) /\
  (forall sel, selectedVideo (session es) = Some sel ->
               ~ In (url sel) (revoked (session es))).
Proof.
  assert (T : Tracked (session es) ([] ++ importedIds es)
                      ([] ++ importedUrls es)).
  { apply Tracked_run; auto.
    repeat split; simpl; try constructor; intros x []. }
  destruct T as (Ni & _ & Nu & _).
  assert (Live : forall v, In v (videos (session es)) ->
                           ~ In (url v) (revoked (session es))).
  { intros v I. apply (NoDup_app_disjoint _ _ _ Nu). now apply in_map. }
  assert (M : MirrorOK (session es)).
  { apply session_invariant.
    - intros sel S. discriminate.
    - intros st q H. exact H.
    - apply MirrorOK_step. }
  split; [exact Ni|]. split; [now apply NoDup_app_remove_l in Nu|].
  split; [exact Live|].
  intros sel S. destruct (M sel S) as (u & I & E & _).
  replace (url sel) with (url u) by exact (f_equal url E).
  now apply Live.
Qed.

Lemma session_no_released_url_in_use_witness :
  NoDup (importedIds
           [ FileReady pendingFile [Duration.LoadError]; ClickVideo 0;
             ClickDelete 0 ]) /\
  revoked (session [ FileReady pendingFile [Duration.LoadError];
                     ClickVideo 0; ClickDelete 0 ]) = ["blob:clip"] /\
  NoDup (revoked (session [ FileReady pendingFile [Duration.LoadError];
                            ClickVideo 0; ClickDelete 0 ])).
Proof.
  assert (Hi : NoDup (importedIds
                        [ FileReady pendingFile [Duration.LoadError];
                          ClickVideo 0; ClickDelete 0 ])).
  { simpl. repeat constructor. intros []. }
  assert (Hu : NoDup (importedUrls
                        [ FileReady pendingFile [Duration.LoadError];
                          ClickVideo 0; ClickDelete 0 ])).
  { simpl. repeat constructor. intros []. }
  split; [exact Hi|]. split; [reflexivity|].
  exact (proj1 (proj2 (session_no_released_url_in_use _ Hi Hu))).
Defined.

(** ** The year label is text of the name *)

(** X24.  A year label is never made up: a label of the shape "20dd"
    is a piece of the file name, standing where the leftmost such text
    of the name stands.  A name without such a text gets no year
    label. *)
Theorem year_label_is_text_of_name (filename l : string)
    (Hin : In l (generateAutoTags filename)) (Hyear : IsYear l) :
  FirstYear filename l /\
  exists pre post, filename = pre +++ l +++ post.
Proof.
  apply In_generateAutoTags in Hin. destruct Hin as [I | [_ ->]].
  - pose proof (Inferred_year _ _ I Hyear) as F. split; [exact F|].
    destruct F as (pre & post & E & _). eauto.
  - apply IsYear_length in Hyear. discriminate.
Qed.

Lemma year_label_is_text_of_name_witness :
  In "2024" (generateAutoTags "Team_Meeting_2024_final.mp4") /\
  exists pre post, "Team_Meeting_2024_final.mp4" = pre +++ "2024" +++ post.
Proof.
  assert (I : In "2024" (generateAutoTags "Team_Meeting_2024_final.mp4")).
  { simpl. auto. }
  split; [exact I|].
  apply (proj2 (year_label_is_text_of_name
                  "Team_Meeting_2024_final.mp4" "2024" I
                  ltac:(exists "2"%char, "4"%char; repeat split; reflexivity))).
Defined.
